(** * Physical memory of the hart simulator: a shallow embedding of
    [Memory.hpp] (namespace [WdRiscv]) and the properties of its access
    engine, last-write tracking and LR reservation tracking.

    Conventions of the embedding.
    - Unsigned machine integers ([size_t], [unsigned], [uint8_t] ..
      [uint64_t]) are numbers of type [N]; [size_t] is 64 bits wide and its
      wrap-around is written [wrap].  The shift amount [pageShift_] is
      assumed smaller than 64, as the C++ shifts require.
    - The byte buffer [data_] is a list of bytes; [size_] is its length.
      A typed access through [reinterpret_cast] is a little-endian load or
      store of [sizeof(T)] bytes.  An access that leaves the buffer has no
      defined behaviour in C++: the outcome [Undefined] stands for it.
    - [std::vector::at] raises [std::out_of_range] on a bad index: the
      outcome [Throws] stands for it.
    - A method [bool f(..., T& value)] returns [Some v] when the C++ returns
      true having assigned [v], and [None] when it returns false (the
      reference is then left untouched).
    - Non-const methods pass the memory explicitly and return it. *)

From Stdlib Require Import NArith Lia Bool.
From stdpp Require Import base numbers option list strings gmap.

Local Open Scope N_scope.

Module WdRiscv.

(** ** Outcomes of a call *)

Inductive outcome (A : Type) : Type :=
| Returns (a : A)
| Throws
| Undefined.

Arguments Returns {A} a.
Arguments Throws {A}.
Arguments Undefined {A}.

#[global] Instance outcome_ret : MRet outcome := fun A a => Returns a.

#[global] Instance outcome_bind : MBind outcome := fun A B k x =>
  match x with
  | Returns a => k a
  | Throws => Throws
  | Undefined => Undefined
  end.

(** [vector::at]. *)
Definition at_ {A : Type} (v : list A) (ix : N) : outcome A :=
  match v !! N.to_nat ix with
  | Some x => Returns x
  | None => Throws
  end.

(** ** Machine integers *)

Definition wrap (x : N) : N := x mod 2 ^ 64.

(** The access types [T] of the templates: [uint8_t], [uint16_t],
    [uint32_t], [uint64_t]. *)
Inductive width : Type := W1 | W2 | W4 | W8.

Definition sizeof (w : width) : N :=
  match w with W1 => 1 | W2 => 2 | W4 => 4 | W8 => 8 end.

Definition nbytes (w : width) : nat := N.to_nat (sizeof w).

(** The values of type [T]. *)
Definition fits (w : width) (v : N) : Prop := v < 2 ^ (8 * sizeof w).

(** ** Page attributes *)

Record PageAttribs : Type := mkPageAttribs {
  read_ : bool;
  write_ : bool;
  exec_ : bool;
  reg_ : bool;
  iccm_ : bool;
  dccm_ : bool
}.

(** The default constructor [PageAttribs()]. *)
Definition noAccess : PageAttribs := mkPageAttribs false false false false false false.

Definition setAll (flag : bool) (p : PageAttribs) : PageAttribs :=
  mkPageAttribs flag flag flag flag flag flag.
Definition setWrite (flag : bool) (p : PageAttribs) : PageAttribs :=
  mkPageAttribs (read_ p) flag (exec_ p) (reg_ p) (iccm_ p) (dccm_ p).
Definition setExec (flag : bool) (p : PageAttribs) : PageAttribs :=
  mkPageAttribs (read_ p) (write_ p) flag (reg_ p) (iccm_ p) (dccm_ p).
Definition setRead (flag : bool) (p : PageAttribs) : PageAttribs :=
  mkPageAttribs flag (write_ p) (exec_ p) (reg_ p) (iccm_ p) (dccm_ p).
Definition setMemMappedReg (flag : bool) (p : PageAttribs) : PageAttribs :=
  mkPageAttribs (read_ p) (write_ p) (exec_ p) flag (iccm_ p) (dccm_ p).
Definition setIccm (flag : bool) (p : PageAttribs) : PageAttribs :=
  mkPageAttribs (read_ p) (write_ p) (exec_ p) (reg_ p) flag (dccm_ p).
Definition setDccm (flag : bool) (p : PageAttribs) : PageAttribs :=
  mkPageAttribs (read_ p) (write_ p) (exec_ p) (reg_ p) (iccm_ p) flag.

Definition isExec (p : PageAttribs) : bool := exec_ p.
Definition isRead (p : PageAttribs) : bool := read_ p.
Definition isWrite (p : PageAttribs) : bool := write_ p.
Definition isIccm (p : PageAttribs) : bool := iccm_ p.
Definition isDccm (p : PageAttribs) : bool := dccm_ p.
Definition isMemMappedReg (p : PageAttribs) : bool := reg_ p.
Definition isExternal (p : PageAttribs) : bool := negb (dccm_ p) && negb (reg_ p).
Definition isMapped (p : PageAttribs) : bool := read_ p || write_ p || exec_ p.

(** ** Reservations and last-write records *)

Record Reservation : Type := mkReservation {
  res_addr_ : N;
  res_size_ : N;
  res_valid_ : bool
}.

Definition Reservation0 : Reservation := mkReservation 0 0 false.

Definition res_invalidate (r : Reservation) : Reservation :=
  mkReservation (res_addr_ r) (res_size_ r) false.

Record LastWriteData : Type := mkLastWriteData {
  lwd_size_ : N;
  lwd_addr_ : N;
  lwd_value_ : N;
  lwd_prevValue_ : N
}.

Definition LastWriteData0 : LastWriteData := mkLastWriteData 0 0 0 0.

(** ** The memory *)

Record Memory : Type := mkMemory {
  data_ : list N;                       (* the bytes; size_ is the length *)
  pageSize_ : N;
  pageShift_ : N;
  attribs_ : list PageAttribs;          (* one entry per page *)
  masks_ : list (list N);               (* one vector per page *)
  reservations_ : list Reservation;     (* one per hart *)
  lastWriteData_ : list LastWriteData   (* one per hart *)
}.

Definition size_ (m : Memory) : N := N.of_nat (length (data_ m)).

Definition with_data (d : list N) (m : Memory) : Memory :=
  mkMemory d (pageSize_ m) (pageShift_ m) (attribs_ m) (masks_ m)
           (reservations_ m) (lastWriteData_ m).
Definition with_attribs (a : list PageAttribs) (m : Memory) : Memory :=
  mkMemory (data_ m) (pageSize_ m) (pageShift_ m) a (masks_ m)
           (reservations_ m) (lastWriteData_ m).
Definition with_reservations (r : list Reservation) (m : Memory) : Memory :=
  mkMemory (data_ m) (pageSize_ m) (pageShift_ m) (attribs_ m) (masks_ m)
           r (lastWriteData_ m).
Definition with_lastWriteData (l : list LastWriteData) (m : Memory) : Memory :=
  mkMemory (data_ m) (pageSize_ m) (pageShift_ m) (attribs_ m) (masks_ m)
           (reservations_ m) l.

(** [setHartCount]: both vectors are resized, new slots value-initialised. *)
Definition setHartCount (count : N) (m : Memory) : Memory :=
  with_lastWriteData (resize (N.to_nat count) LastWriteData0 (lastWriteData_ m))
    (with_reservations (resize (N.to_nat count) Reservation0 (reservations_ m)) m).

(** ** Typed access to the byte buffer *)

Fixpoint encodeLE (n : nat) (v : N) : list N :=
  match n with
  | O => []
  | S n' => v mod 256 :: encodeLE n' (v / 256)
  end.

Fixpoint decodeLE (bs : list N) : N :=
  match bs with
  | [] => 0
  | b :: bs' => b + 256 * decodeLE bs'
  end.

(** [*(reinterpret_cast<const T*>(data_ + address))] *)
Definition loadT (data : list N) (w : width) (address : N) : outcome N :=
  if address + sizeof w <=? N.of_nat (length data)
  then Returns (decodeLE (take (nbytes w) (drop (N.to_nat address) data)))
  else Undefined.

(** [*(reinterpret_cast<T*>(data_ + address)) = value] *)
Definition storeT (data : list N) (w : width) (address value : N) : outcome (list N) :=
  if address + sizeof w <=? N.of_nat (length data)
  then Returns (take (N.to_nat address) data ++ encodeLE (nbytes w) value
                  ++ drop (N.to_nat address + nbytes w) data)
  else Undefined.

(** ** Page attribute table *)

Definition pageSize (m : Memory) : N := pageSize_ m.

Definition getPageIx (m : Memory) (addr : N) : N := N.shiftr addr (pageShift_ m).

Definition getAttrib (m : Memory) (addr : N) : PageAttribs :=
  let ix := getPageIx m addr in
  if ix <? N.of_nat (length (attribs_ m))
  then default noAccess (attribs_ m !! N.to_nat ix)
  else noAccess.

Definition getPageStartAddr (m : Memory) (addr : N) : N :=
  wrap (N.shiftl (N.shiftr addr (pageShift_ m)) (pageShift_ m)).

Definition isAddrMapped (m : Memory) (addr : N) : bool := isMapped (getAttrib m addr).
Definition isAddrReadable (m : Memory) (addr : N) : bool := isRead (getAttrib m addr).
Definition isAddrInDccm (m : Memory) (addr : N) : bool := isDccm (getAttrib m addr).
Definition isAddrInIccm (m : Memory) (addr : N) : bool := isIccm (getAttrib m addr).
Definition isAddrInMappedRegs (m : Memory) (addr : N) : bool :=
  isMemMappedReg (getAttrib m addr).

(** [attribs_[ix].setX(value)], a no-op when the page is out of bounds. *)
Definition setAccess (f : bool -> PageAttribs -> PageAttribs)
    (m : Memory) (addr : N) (value : bool) : Memory :=
  let ix := getPageIx m addr in
  if N.of_nat (length (attribs_ m)) <=? ix then m
  else with_attribs (alter (f value) (N.to_nat ix) (attribs_ m)) m.

Definition setWriteAccess := setAccess setWrite.
Definition setReadAccess := setAccess setRead.
Definition setExecAccess := setAccess setExec.

(** ** Register mask table *)

Definition allOnes32 : N := 2 ^ 32 - 1.

Definition getMemoryMappedMask (m : Memory) (addr : N) : outcome N :=
  let mask := allOnes32 in
  match masks_ m with
  | [] => Returns mask
  | _ =>
    let pageIx := getPageIx m addr in
    pageMasks ← at_ (masks_ m) pageIx;
    match pageMasks with
    | [] => Returns mask
    | _ =>
      let wordIx := (addr - getPageStartAddr m addr) / 4 in
      at_ pageMasks wordIx
    end
  end.

Definition doRegisterMasking (m : Memory) (addr value : N) : outcome N :=
  mask ← getMemoryMappedMask m addr;
  Returns (N.land value mask).

(** ** Memory mapped registers *)

Definition readRegister (m : Memory) (addr : N) : outcome (option N) :=
  if negb (N.land addr 3 =? 0) then Returns None
  else
    v ← loadT (data_ m) W4 addr;
    Returns (Some v).

Definition writeRegister (m : Memory) (localHartId addr value : N)
    : outcome (bool * Memory) :=
  if negb (N.land addr 3 =? 0) then Returns (false, m)
  else
    value ← doRegisterMasking m addr value;
    _ ← at_ (lastWriteData_ m) localHartId;
    prev ← loadT (data_ m) W4 addr;
    data' ← storeT (data_ m) W4 addr value;
    Returns (true,
             with_lastWriteData
               (<[N.to_nat localHartId := mkLastWriteData 4 addr value prev]>
                  (lastWriteData_ m))
               (with_data data' m)).

(** ** Access engine *)

(** [read<T>]. *)
Definition read (m : Memory) (w : width) (address : N) : outcome (option N) :=
  let attrib := getAttrib m address in
  if negb (isRead attrib) then Returns None
  else
    let crossingOk :=
      if negb (N.land address (sizeof w - 1) =? 0) then
        let page := getPageStartAddr m address in
        let page2 := getPageStartAddr m (wrap (address + sizeof w - 1)) in
        if negb (page =? page2) then
          let attrib2 := getAttrib m (wrap (address + sizeof w)) in
          if negb (isRead attrib2) then false
          else if xorb (isDccm attrib) (isDccm attrib2) then false
          else if xorb (isMemMappedReg attrib) (isMemMappedReg attrib2) then false
          else true
        else true
      else true in
    if negb crossingOk then Returns None
    else
      let plain := v ← loadT (data_ m) w address; Returns (Some v) in
      match w with
      | W4 => if isMemMappedReg attrib then readRegister m address else plain
      | _ => if isMemMappedReg attrib then Returns None else plain
      end.

Definition readByte (m : Memory) (address : N) : outcome (option N) :=
  let attrib := getAttrib m address in
  if negb (isRead attrib) then Returns None
  else if isMemMappedReg attrib then Returns None
  else
    v ← loadT (data_ m) W1 address;
    Returns (Some v).

Definition readHalfWord (m : Memory) (address : N) := read m W2 address.
Definition readWord (m : Memory) (address : N) := read m W4 address.
Definition readDoubleWord (m : Memory) (address : N) := read m W8 address.

Definition readInstHalfWord (m : Memory) (address : N) : outcome (option N) :=
  let attrib := getAttrib m address in
  if isExec attrib then
    let crossingOk :=
      if negb (N.land address 1 =? 0) then
        let page := getPageStartAddr m address in
        let page2 := getPageStartAddr m (wrap (address + 1)) in
        if negb (page =? page2) then
          let attrib2 := getAttrib m (wrap (address + 1)) in
          if negb (isExec attrib2) then false
          else if xorb (isIccm attrib) (isIccm attrib2) then false
          else true
        else true
      else true in
    if negb crossingOk then Returns None
    else
      v ← loadT (data_ m) W2 address;
      Returns (Some v)
  else Returns None.

Definition readInstWord (m : Memory) (address : N) : outcome (option N) :=
  let attrib := getAttrib m address in
  if isExec attrib then
    let crossingOk :=
      if negb (N.land address 3 =? 0) then
        let page := getPageStartAddr m address in
        let page2 := getPageStartAddr m (wrap (address + 3)) in
        if negb (page =? page2) then
          let attrib2 := getAttrib m (wrap (address + 3)) in
          if negb (isExec attrib2) then false
          else if xorb (isIccm attrib) (isIccm attrib2) then false
          else true
        else true
      else true in
    if negb crossingOk then Returns None
    else
      v ← loadT (data_ m) W4 address;
      Returns (Some v)
  else Returns None.

(** [checkWrite<T>]: the result holds the returned flag, the reference
    [value] after the call, and the memory after the call. *)
Definition checkWrite (m : Memory) (w : width) (address value : N)
    : outcome (bool * N * Memory) :=
  let attrib1 := getAttrib m address in
  let dccm1 := isDccm attrib1 in
  if negb (isWrite attrib1) then Returns (false, value, m)
  else
    let crossingOk :=
      if negb (N.land address (sizeof w - 1) =? 0) then
        let page := getPageStartAddr m address in
        let page2 := getPageStartAddr m (wrap (address + sizeof w - 1)) in
        if negb (page =? page2) then
          let attrib2 := getAttrib m (wrap (address + sizeof w)) in
          if negb (isWrite attrib2) then false
          else if xorb dccm1 (isDccm attrib2) then false
          else if xorb (isMemMappedReg attrib1) (isMemMappedReg attrib2) then false
          else true
        else true
      else true in
    if negb crossingOk then Returns (false, value, m)
    else
      match w with
      | W4 =>
        if isMemMappedReg attrib1 && negb (N.land address 3 =? 0)
        then Returns (false, value, m)
        else
          value ← doRegisterMasking m address value;
          Returns (true, value, m)
      | _ =>
        if isMemMappedReg attrib1 then Returns (false, value, m)
        else Returns (true, value, m)
      end.

(** [write<T>]. *)
Definition write (m : Memory) (localHartId : N) (w : width) (address value : N)
    : outcome (bool * Memory) :=
  let attrib1 := getAttrib m address in
  let dccm1 := isDccm attrib1 in
  if negb (isWrite attrib1) then Returns (false, m)
  else
    let crossingOk :=
      if negb (N.land address (sizeof w - 1) =? 0) then
        let page := getPageStartAddr m address in
        let page2 := getPageStartAddr m (wrap (address + sizeof w - 1)) in
        if negb (page =? page2) then
          let attrib2 := getAttrib m (wrap (address + sizeof w)) in
          if negb (isWrite attrib2) then false
          else if xorb dccm1 (isDccm attrib2) then false
          else if xorb (isMemMappedReg attrib1) (isMemMappedReg attrib2) then false
          else true
        else true
      else true in
    if negb crossingOk then Returns (false, m)
    else
      let plain :=
        _ ← at_ (lastWriteData_ m) localHartId;
        prev ← loadT (data_ m) w address;
        data' ← storeT (data_ m) w address value;
        Returns (true,
                 with_lastWriteData
                   (<[N.to_nat localHartId :=
                        mkLastWriteData (sizeof w) address value prev]>
                      (lastWriteData_ m))
                   (with_data data' m)) in
      match w with
      | W4 =>
        if isMemMappedReg attrib1 then writeRegister m localHartId address value
        else plain
      | _ => if isMemMappedReg attrib1 then Returns (false, m) else plain
      end.

Definition writeByte (m : Memory) (localHartId address value : N)
    : outcome (bool * Memory) :=
  let attrib := getAttrib m address in
  if negb (isWrite attrib) then Returns (false, m)
  else if isMemMappedReg attrib then Returns (false, m)
  else
    _ ← at_ (lastWriteData_ m) localHartId;
    prev ← loadT (data_ m) W1 address;
    data' ← storeT (data_ m) W1 address value;
    Returns (true,
             with_lastWriteData
               (<[N.to_nat localHartId := mkLastWriteData 1 address value prev]>
                  (lastWriteData_ m))
               (with_data data' m)).

Definition writeHalfWord (m : Memory) (localHartId address value : N) :=
  write m localHartId W2 address value.
Definition writeWord (m : Memory) (localHartId address value : N) :=
  write m localHartId W4 address value.
Definition writeDoubleWord (m : Memory) (localHartId address value : N) :=
  write m localHartId W8 address value.

(** [poke<T>]: same as write but not recorded in the last-write info. *)
Definition poke (m : Memory) (w : width) (address value : N)
    : outcome (bool * Memory) :=
  let attrib := getAttrib m address in
  if negb (isMapped attrib) then Returns (false, m)
  else
    let pageEnd := wrap (getPageStartAddr m address + pageSize_ m) in
    let nextOk :=
      if pageEnd <? wrap (address + sizeof w) then
        let attrib2 := getAttrib m (wrap (address + sizeof w)) in
        isMapped attrib2
      else true in
    if negb nextOk then Returns (false, m)
    else
      let plain :=
        data' ← storeT (data_ m) w address value;
        Returns (true, with_data data' m) in
      match w with
      | W4 =>
        if isMemMappedReg attrib then
          if negb (N.land address 3 =? 0) then Returns (false, m) else plain
        else plain
      | _ => if isMemMappedReg attrib then Returns (false, m) else plain
      end.

Definition pokeByte (m : Memory) (address value : N) : outcome (bool * Memory) :=
  let attrib := getAttrib m address in
  if negb (isMapped attrib) then Returns (false, m)
  else if isMemMappedReg attrib then Returns (false, m)
  else
    data' ← storeT (data_ m) W1 address value;
    Returns (true, with_data data' m).

(** ** Last-write information

    The getters take the references [addr] and [value] as they are before
    the call and return the size together with both references after it. *)

Definition getLastWriteNewValue (m : Memory) (localHartId addr value : N)
    : outcome (N * N * N) :=
  lwd ← at_ (lastWriteData_ m) localHartId;
  if negb (lwd_size_ lwd =? 0)
  then Returns (lwd_size_ lwd, lwd_addr_ lwd, lwd_value_ lwd)
  else Returns (lwd_size_ lwd, addr, value).

(** The overload [getLastWriteOldValue(localHartId, addr, value)]. *)
Definition getLastWriteOldValue (m : Memory) (localHartId addr value : N)
    : outcome (N * N * N) :=
  lwd ← at_ (lastWriteData_ m) localHartId;
  if negb (lwd_size_ lwd =? 0)
  then Returns (lwd_size_ lwd, lwd_addr_ lwd, lwd_value_ lwd)
  else Returns (lwd_size_ lwd, addr, value).

(** The overload [getLastWriteOldValue(localHartId, value)]. *)
Definition getLastWriteOldValue_value (m : Memory) (localHartId value : N)
    : outcome (N * N) :=
  lwd ← at_ (lastWriteData_ m) localHartId;
  if negb (lwd_size_ lwd =? 0)
  then Returns (lwd_size_ lwd, lwd_prevValue_ lwd)
  else Returns (lwd_size_ lwd, value).

Definition clearLastWriteInfo (m : Memory) (localHartId : N) : outcome Memory :=
  lwd ← at_ (lastWriteData_ m) localHartId;
  Returns (with_lastWriteData
             (<[N.to_nat localHartId :=
                  mkLastWriteData 0 (lwd_addr_ lwd) (lwd_value_ lwd)
                                  (lwd_prevValue_ lwd)]>
                (lastWriteData_ m)) m).

(** ** Reservation tracker *)

(** The body of the loop of [invalidateOtherHartLr] at index [i]. *)
Definition invalidateStep (localHartId addr storeSize : N) (i : N)
    (res : Reservation) : Reservation :=
  if i =? localHartId then res
  else if (res_addr_ res <=? addr) && (addr - res_addr_ res <? res_size_ res)
  then res_invalidate res
  else if (addr <? res_addr_ res) && (res_addr_ res - addr <? storeSize)
  then res_invalidate res
  else res.

(** The loop, from index [i] over the slots [rs] that remain. *)
Fixpoint invalidateLoop (localHartId addr storeSize : N) (i : N)
    (rs : list Reservation) : list Reservation :=
  match rs with
  | [] => []
  | res :: rest =>
    invalidateStep localHartId addr storeSize i res
      :: invalidateLoop localHartId addr storeSize (i + 1) rest
  end.

Definition invalidateOtherHartLr (m : Memory) (localHartId addr storeSize : N)
    : Memory :=
  with_reservations
    (invalidateLoop localHartId addr storeSize 0 (reservations_ m)) m.

Definition invalidateLr (m : Memory) (localHartId : N) : outcome Memory :=
  res ← at_ (reservations_ m) localHartId;
  Returns (with_reservations
             (<[N.to_nat localHartId := res_invalidate res]> (reservations_ m)) m).

Definition makeLr (m : Memory) (localHartId addr size : N) : outcome Memory :=
  _ ← at_ (reservations_ m) localHartId;
  Returns (with_reservations
             (<[N.to_nat localHartId := mkReservation addr size true]>
                (reservations_ m)) m).

Definition hasLr (m : Memory) (localHartId addr : N) : outcome bool :=
  res ← at_ (reservations_ m) localHartId;
  Returns (res_valid_ res && (res_addr_ res =? addr)).

(** ** Validation as the specification words it

    These predicates restate the access rules in terms of page attributes;
    the theorems below compare them with the code. *)

(** A misaligned access of [n] bytes at [address] whose first and last
    byte lie in different pages. *)
Definition crossesPage (m : Memory) (n address : N) : bool :=
  negb (N.land address (n - 1) =? 0)
  && negb (getPageStartAddr m address =? getPageStartAddr m (wrap (address + n - 1))).

(** Read permission: the page of the first byte is readable and, for an
    access that crosses a page boundary, so is the page checked next. *)
Definition readPermitted (m : Memory) (w : width) (address : N) : bool :=
  isRead (getAttrib m address)
  && (if crossesPage m (sizeof w) address
      then isRead (getAttrib m (wrap (address + sizeof w)))
      else true).

(** Store validation: writable start page; on a crossing access the next
    page is writable and of the same DCCM and register class; a register
    page takes only word-aligned 4-byte stores. *)
Definition storePermitted (m : Memory) (w : width) (address : N) : bool :=
  let attrib1 := getAttrib m address in
  isWrite attrib1
  && (if crossesPage m (sizeof w) address
      then let attrib2 := getAttrib m (wrap (address + sizeof w)) in
           isWrite attrib2
           && eqb (isDccm attrib1) (isDccm attrib2)
           && eqb (isMemMappedReg attrib1) (isMemMappedReg attrib2)
      else true)
  && (if isMemMappedReg attrib1
      then match w with W4 => N.land address 3 =? 0 | _ => false end
      else true).

(** Fetch validation for an instruction of [n] bytes: executable start
    page; on a crossing fetch the page of the last byte is executable and
    has the same ICCM membership. *)
Definition fetchPermitted (m : Memory) (n address : N) : bool :=
  let attrib := getAttrib m address in
  isExec attrib
  && (if crossesPage m n address
      then let attrib2 := getAttrib m (wrap (address + n - 1)) in
           isExec attrib2 && eqb (isIccm attrib) (isIccm attrib2)
      else true).

(** Two memories that agree on the buffer, on the page shift and on the
    executable and ICCM flags of every address. *)
Definition sameFetchView (m1 m2 : Memory) : Prop :=
  data_ m1 = data_ m2
  /\ pageShift_ m1 = pageShift_ m2
  /\ forall x, isExec (getAttrib m1 x) = isExec (getAttrib m2 x)
               /\ isIccm (getAttrib m1 x) = isIccm (getAttrib m2 x).

(** The half-open intervals [[a1, a1+s1)] and [[a2, a2+s2)] of unbounded
    numbers have a common point. *)
Definition intervalsIntersect (a1 s1 a2 s2 : N) : Prop :=
  exists x : N, a1 <= x < a1 + s1 /\ a2 <= x < a2 + s2.

(** Load validation: readable start page; on a crossing access the next
    page is readable and of the same DCCM and register class; a register
    page serves only word-aligned 4-byte loads. *)
Definition loadPermitted (m : Memory) (w : width) (address : N) : bool :=
  let attrib := getAttrib m address in
  isRead attrib
  && (if crossesPage m (sizeof w) address
      then let attrib2 := getAttrib m (wrap (address + sizeof w)) in
           isRead attrib2
           && eqb (isDccm attrib) (isDccm attrib2)
           && eqb (isMemMappedReg attrib) (isMemMappedReg attrib2)
      else true)
  && (if isMemMappedReg attrib
      then match w with W4 => N.land address 3 =? 0 | _ => false end
      else true).

(** What a validated store commits: the value (masked on a register page)
    goes to the buffer and the hart's last-write record is overwritten. *)
Definition commitStore (m : Memory) (localHartId : N) (w : width)
    (address value : N) : outcome (bool * Memory) :=
  value ← (if isMemMappedReg (getAttrib m address)
           then doRegisterMasking m address value
           else Returns value);
  _ ← at_ (lastWriteData_ m) localHartId;
  prev ← loadT (data_ m) w address;
  data' ← storeT (data_ m) w address value;
  Returns (true,
           with_lastWriteData
             (<[N.to_nat localHartId :=
                  mkLastWriteData (sizeof w) address value prev]>
                (lastWriteData_ m))
             (with_data data' m)).

(** ** A small configuration used in the examples

    Four pages of 64 bytes: external memory, DCCM, a register page whose
    first word has write mask [0x1], and ICCM; two harts. *)

(** Modelled from the spec: the attributes the region configurator (the
    bodies of [defineIccm], [defineDccm],
    [defineMemoryMappedRegisterRegion] and [finishCcmConfig] are not among
    the sources) gives each kind of page: external pages read+write+exec,
    DCCM pages read+write, ICCM pages read+exec, register pages
    read+write. *)
Definition externalPage : PageAttribs := mkPageAttribs true true true false false false.
Definition dccmPage : PageAttribs := mkPageAttribs true true false false false true.
Definition iccmPage : PageAttribs := mkPageAttribs true false true false true false.
Definition registerPage : PageAttribs := mkPageAttribs true true false true false false.

Definition demoMasks : list (list N) := [[]; []; 1 :: repeat allOnes32 15; []].

Definition demoMemory : Memory :=
  mkMemory (repeat 0 256) 64 6
           [externalPage; dccmPage; registerPage; iccmPage]
           demoMasks
           [Reservation0; Reservation0]
           [LastWriteData0; LastWriteData0].

(** The same memory after the protection-window call
    [setReadAccess(0, false)]: page 0 stays writable and executable. *)
Definition demoNoRead : Memory := setReadAccess demoMemory 0 false.

(** Four external pages, the second one no longer readable after
    [setReadAccess(64, false)]. *)
Definition demoSecondNoRead : Memory :=
  setReadAccess
    (with_attribs [externalPage; externalPage; externalPage; externalPage] demoMemory)
    64 false.

(** [demoMemory] after hart 1 reserved the four bytes at address 100. *)
Definition demoReserved : Memory :=
  match makeLr demoMemory 1 100 4 with
  | Returns m => m
  | _ => demoMemory
  end.

(** A unified memory, as the comments of the fetch methods call it: every
    address is executable exactly when it is readable, and no page holds
    registers or belongs to ICCM or DCCM. *)
Definition unifiedMemory (m : Memory) : Prop :=
  forall x,
    isExec (getAttrib m x) = isRead (getAttrib m x)
    /\ isMemMappedReg (getAttrib m x) = false
    /\ isIccm (getAttrib m x) = false
    /\ isDccm (getAttrib m x) = false.

(** [demoMemory] with four external pages. *)
Definition demoUnified : Memory :=
  with_attribs [externalPage; externalPage; externalPage; externalPage] demoMemory.

(** ** Validation of the stack checker CSRs ([HartConfig.cpp])

    [csrs] is the JSON object of the "csr" section of the configuration;
    the function consults only which keys it holds ([csrs.count(tag)], 0 or
    1 on an object).  The result pairs the returned flag with the text
    written to [std::cerr]. *)

Definition stackCheckerTags : list string := ["mspcba"; "mspcta"; "mspcc"]%string.

Definition newline : string := String (Ascii.ascii_of_nat 10) EmptyString.

Definition jsonCount {A : Type} (csrs : gmap string A) (tag : string) : N :=
  match csrs !! tag with Some _ => 1 | None => 0 end.

(** The two printing loops: the tags for which [keep] holds, separated by
    [", "]. *)
Fixpoint printTags (keep : string -> bool) (sep : string) (tags : list string)
    : string :=
  match tags with
  | [] => EmptyString
  | tag :: rest =>
    if keep tag then (sep +:+ tag +:+ printTags keep ", " rest)%string
    else printTags keep sep rest
  end.

Definition validateStackChecker {A : Type} (csrs : gmap string A) : bool * string :=
  let tags := stackCheckerTags in
  let present := fun tag => negb (jsonCount csrs tag =? 0) in
  let missing := fun tag => jsonCount csrs tag =? 0 in
  let count := foldl (fun count tag => if present tag then count + 1 else count) 0 tags in
  if count =? 0 then (true, EmptyString)
  else if negb (count =? N.of_nat (length tags)) then
    (false,
     ("Error: Not all stack checker CSRs are defined:" +:+ newline
      +:+ "  Defined: " +:+ printTags present EmptyString tags
      +:+ "  Missing: " +:+ printTags missing EmptyString tags)%string)
  else (true, EmptyString).

(** * Properties *)

(** ** Little-endian packing *)

Lemma length_encodeLE (n : nat) (v : N) : length (encodeLE n v) = n.
Proof. revert v; induction n as [|n IH]; intros v; simpl; [done | by rewrite IH]. Qed.

Lemma decodeLE_encodeLE (n : nat) (v : N) :
  decodeLE (encodeLE n v) = v mod 256 ^ N.of_nat n.
Proof.
  revert v; induction n as [|n IH]; intros v.
  - simpl. by rewrite N.mod_1_r.
  - cbn [encodeLE decodeLE]. rewrite IH, Nat2N.inj_succ, N.pow_succ_r'.
    symmetry. apply N.Div0.mod_mul_r.
Qed.

Lemma pow256_sizeof (w : width) : 256 ^ N.of_nat (nbytes w) = 2 ^ (8 * sizeof w).
Proof. by destruct w. Qed.

Lemma loadT_storeT (d d' : list N) (w : width) (a v : N) :
  storeT d w a v = Returns d' ->
  loadT d' w a = Returns (v mod 2 ^ (8 * sizeof w)).
Proof.
  unfold storeT, loadT. destruct (N.leb_spec (a + sizeof w) (N.of_nat (length d))) as [Hle|]; [|done].
  intros [= <-].
  assert (Hn : nbytes w = N.to_nat (sizeof w)) by done.
  assert (Hlen : length (take (N.to_nat a) d) = N.to_nat a) by (rewrite length_take; lia).
  rewrite !length_app, Hlen, length_encodeLE, length_drop.
  destruct (N.leb_spec (a + sizeof w)
              (N.of_nat (N.to_nat a + (nbytes w + (length d - (N.to_nat a + nbytes w)))))) as [_|Hlt];
    [|lia].
  rewrite drop_app_length' by done.
  rewrite take_app_length' by (by rewrite length_encodeLE).
  by rewrite decodeLE_encodeLE, pow256_sizeof.
Qed.

(** ** The code against the validation predicates *)

Ltac split_conditions m w a :=
  set (attrib1 := getAttrib m a);
  set (attrib2 := getAttrib m (wrap (a + sizeof w)));
  set (page1 := getPageStartAddr m a);
  set (page2 := getPageStartAddr m (wrap (a + sizeof w - 1)));
  destruct w; cbn [sizeof]; change (2 - 1) with 1; change (4 - 1) with 3;
  change (8 - 1) with 7; change (1 - 1) with 0.

Lemma read_spec (m : Memory) (w : width) (a : N) :
  read m w a =
  if loadPermitted m w a
  then v ← loadT (data_ m) w a; Returns (Some v)
  else Returns None.
Proof.
  unfold read, loadPermitted, crossesPage, readRegister.
  split_conditions m w a;
    destruct (isRead attrib1), (N.land a _ =? 0), (page1 =? page2),
      (isRead attrib2), (isDccm attrib1), (isDccm attrib2),
      (isMemMappedReg attrib1), (isMemMappedReg attrib2); reflexivity.
Qed.

Lemma write_spec (m : Memory) (h : N) (w : width) (a v : N) :
  write m h w a v =
  if storePermitted m w a then commitStore m h w a v else Returns (false, m).
Proof.
  unfold write, storePermitted, crossesPage, writeRegister, commitStore.
  split_conditions m w a;
    destruct (isWrite attrib1), (N.land a _ =? 0), (page1 =? page2),
      (isWrite attrib2), (isDccm attrib1), (isDccm attrib2),
      (isMemMappedReg attrib1), (isMemMappedReg attrib2); reflexivity.
Qed.

Lemma checkWrite_spec (m : Memory) (w : width) (a v : N) :
  checkWrite m w a v =
  if storePermitted m w a
  then value ← match w with
               | W4 => doRegisterMasking m a v
               | _ => Returns v
               end;
       Returns (true, value, m)
  else Returns (false, v, m).
Proof.
  unfold checkWrite, storePermitted, crossesPage.
  split_conditions m w a;
    destruct (isWrite attrib1), (N.land a _ =? 0), (page1 =? page2),
      (isWrite attrib2), (isDccm attrib1), (isDccm attrib2),
      (isMemMappedReg attrib1), (isMemMappedReg attrib2); reflexivity.
Qed.

Lemma commitStore_flag (m m' : Memory) (h : N) (w : width) (a v : N) (b : bool) :
  commitStore m h w a v = Returns (b, m') -> b = true.
Proof.
  unfold commitStore.
  destruct (if isMemMappedReg (getAttrib m a) then _ else _); cbn; try discriminate.
  destruct (at_ (lastWriteData_ m) h); cbn; try discriminate.
  destruct (loadT (data_ m) w a); cbn; try discriminate.
  destruct (storeT (data_ m) w a _); cbn; try discriminate.
  by intros [= <- _].
Qed.

Lemma at_is_Some {A : Type} (l : list A) (h : N) :
  is_Some (l !! N.to_nat h) -> exists x, at_ l h = Returns x.
Proof. intros [x Hx]. exists x. unfold at_. by rewrite Hx. Qed.

Lemma loadT_in_buffer (d : list N) (w : width) (a : N) :
  a + sizeof w <= N.of_nat (length d) ->
  loadT d w a = Returns (decodeLE (take (nbytes w) (drop (N.to_nat a) d))).
Proof.
  intros H. unfold loadT.
  by destruct (N.leb_spec (a + sizeof w) (N.of_nat (length d))); [|lia].
Qed.

Lemma storeT_in_buffer (d : list N) (w : width) (a v : N) :
  a + sizeof w <= N.of_nat (length d) ->
  exists d', storeT d w a v = Returns d'.
Proof.
  intros H. unfold storeT.
  destruct (N.leb_spec (a + sizeof w) (N.of_nat (length d))); [|lia].
  by eexists.
Qed.

(** A store that succeeds on a page without registers: what it leaves. *)
Lemma write_plain_success (m m' : Memory) (h : N) (w : width) (a v : N) :
  isMemMappedReg (getAttrib m a) = false ->
  write m h w a v = Returns (true, m') ->
  storePermitted m w a = true
  /\ exists prev d',
       loadT (data_ m) w a = Returns prev
       /\ storeT (data_ m) w a v = Returns d'
       /\ m' = with_lastWriteData
                 (<[N.to_nat h := mkLastWriteData (sizeof w) a v prev]>
                    (lastWriteData_ m))
                 (with_data d' m).
Proof.
  intros Hreg. rewrite write_spec.
  destruct (storePermitted m w a); [|discriminate].
  unfold commitStore. rewrite Hreg. cbn.
  destruct (at_ (lastWriteData_ m) h); cbn; try discriminate.
  destruct (loadT (data_ m) w a) as [prev| |]; cbn; try discriminate.
  destruct (storeT (data_ m) w a v) as [d'| |]; cbn; try discriminate.
  intros [= <-]. split; [done|]. by exists prev, d'.
Qed.

(** ** Round trip of a store and a load *)

(** C1 (as amended).  For every non-register address [a] that is writable
    and also readable (on an access that crosses a page boundary the next
    page readable too) and every value [v] of a supported width, a
    successful [write(hart, a, v)] followed by [read(a, out)] succeeds and
    yields [out = v]. *)
Theorem write_read_round_trip (m m' : Memory) (h : N) (w : width) (a v : N) :
  fits w v ->
  isMemMappedReg (getAttrib m a) = false ->
  readPermitted m w a = true ->
  write m h w a v = Returns (true, m') ->
  read m' w a = Returns (Some v).
Proof.
  intros Hv Hreg Hrd Hwr.
  destruct (write_plain_success _ _ _ _ _ _ Hreg Hwr)
    as (Hst & prev & d' & _ & Hstore & ->).
  rewrite read_spec.
  change (loadPermitted _ w a) with (loadPermitted m w a).
  assert (Hld : loadPermitted m w a = true).
  { revert Hst Hrd. unfold loadPermitted, storePermitted, readPermitted.
    rewrite Hreg.
    destruct (isRead (getAttrib m a)), (isWrite (getAttrib m a)),
      (crossesPage m (sizeof w) a),
      (isRead (getAttrib m (wrap (a + sizeof w)))),
      (isWrite (getAttrib m (wrap (a + sizeof w)))),
      (eqb (isDccm (getAttrib m a)) (isDccm (getAttrib m (wrap (a + sizeof w))))),
      (eqb false (isMemMappedReg (getAttrib m (wrap (a + sizeof w)))));
      cbn; congruence. }
  rewrite Hld. cbn [data_ with_lastWriteData with_data].
  rewrite (loadT_storeT _ _ _ _ _ Hstore). cbn.
  by rewrite N.mod_small.
Qed.

Lemma write_read_round_trip_witness :
  exists m', write demoMemory 0 W4 5 3735928559 = Returns (true, m')
             /\ read m' W4 5 = Returns (Some 3735928559).
Proof.
  eexists. split; [vm_compute; reflexivity|].
  apply (write_read_round_trip demoMemory _ 0 W4 5 3735928559);
    [vm_compute; reflexivity | vm_compute; reflexivity
    | vm_compute; reflexivity | vm_compute; reflexivity].
Defined.

(** C1 as stated fails: page 0 of [demoNoRead] is mapped, writable and
    holds no registers, address 4 is inside the buffer, the store of
    [0xDEADBEEF] succeeds, and the load that follows is refused because the
    page is not readable. *)
Lemma write_read_round_trip_needs_read :
  isMapped (getAttrib demoNoRead 4) = true
  /\ isWrite (getAttrib demoNoRead 4) = true
  /\ isMemMappedReg (getAttrib demoNoRead 4) = false
  /\ 4 + sizeof W4 <= size_ demoNoRead
  /\ exists m', write demoNoRead 0 W4 4 3735928559 = Returns (true, m')
                /\ read m' W4 4 = Returns None.
Proof.
  repeat split; try (vm_compute; reflexivity).
  - vm_compute. discriminate.
  - eexists. split; vm_compute; reflexivity.
Qed.

(** The same happens when only the second page of a crossing access is
    not readable: the word at 62 spans pages 0 and 1 of
    [demoSecondNoRead]. *)
Lemma crossing_round_trip_needs_read :
  isRead (getAttrib demoSecondNoRead 62) = true
  /\ isWrite (getAttrib demoSecondNoRead 62) = true
  /\ readPermitted demoSecondNoRead W4 62 = false
  /\ exists m', write demoSecondNoRead 0 W4 62 3735928559 = Returns (true, m')
                /\ read m' W4 62 = Returns None.
Proof.
  repeat split; try (vm_compute; reflexivity).
  eexists. split; vm_compute; reflexivity.
Qed.

(** ** Failure leaves no trace *)

(** C2.  Whenever [write], [writeByte] or a register write returns false,
    the memory after the call is the memory before it: the byte buffer and
    every hart's last-write record are untouched. *)
Theorem failed_write_changes_nothing (m m' : Memory) (h : N) (w : width) (a v : N) :
  write m h w a v = Returns (false, m')
  \/ writeByte m h a v = Returns (false, m')
  \/ writeRegister m h a v = Returns (false, m') ->
  m' = m
  /\ data_ m' = data_ m
  /\ lastWriteData_ m' = lastWriteData_ m.
Proof.
  intros H. assert (m' = m) as ->; [|done].
  destruct H as [H|[H|H]].
  - rewrite write_spec in H. destruct (storePermitted m w a).
    + by apply commitStore_flag in H.
    + by injection H.
  - unfold writeByte in H.
    destruct (isWrite (getAttrib m a)); cbn in H; [|by injection H].
    destruct (isMemMappedReg (getAttrib m a)); [by injection H|].
    destruct (at_ (lastWriteData_ m) h); cbn in H; try discriminate.
    destruct (loadT (data_ m) W1 a); cbn in H; try discriminate.
    destruct (storeT (data_ m) W1 a v); cbn in H; discriminate.
  - unfold writeRegister in H.
    destruct (N.land a 3 =? 0); cbn in H; [|by injection H].
    destruct (doRegisterMasking m a v) as [v'| |]; cbn in H; try discriminate.
    destruct (at_ (lastWriteData_ m) h); cbn in H; try discriminate.
    destruct (loadT (data_ m) W4 a); cbn in H; try discriminate.
    destruct (storeT (data_ m) W4 a v'); cbn in H; discriminate.
Qed.

Lemma failed_write_changes_nothing_witness :
  write demoMemory 0 W4 192 7 = Returns (false, demoMemory)
  /\ data_ demoMemory = data_ demoMemory.
Proof.
  split; [vm_compute; reflexivity|].
  apply (failed_write_changes_nothing demoMemory demoMemory 0 W4 192 7).
  left. vm_compute. reflexivity.
Defined.

(** ** [checkWrite] is a dry run of [write] *)

(** C3.  On a memory where hart [h] exists, the mask table answers at [a]
    and a validated store stays inside the buffer, [checkWrite<T>(a, v)]
    and [write<T>(h, a, v)] return the same flag (the store validation);
    [checkWrite] returns the memory as it got it; on a register page the
    value it leaves in [v] is the masked value [v & mask] that [write]
    stores in the buffer; elsewhere [write] stores [v], and [checkWrite]
    leaves [v] as it is where no mask is installed. *)
Theorem checkWrite_dry_run (m : Memory) (h : N) (w : width) (a v mk : N) :
  is_Some (lastWriteData_ m !! N.to_nat h) ->
  getMemoryMappedMask m a = Returns mk ->
  (storePermitted m w a = true -> a + sizeof w <= size_ m) ->
  exists (b : bool) (v' : N) (m' : Memory),
    checkWrite m w a v = Returns (b, v', m)
    /\ write m h w a v = Returns (b, m')
    /\ b = storePermitted m w a
    /\ (b = true -> isMemMappedReg (getAttrib m a) = true ->
        v' = N.land v mk /\ storeT (data_ m) w a v' = Returns (data_ m'))
    /\ (b = true -> isMemMappedReg (getAttrib m a) = false ->
        storeT (data_ m) w a v = Returns (data_ m')
        /\ (mk = allOnes32 -> fits w v -> v' = v)).
Proof.
  intros Hh Hmk Hbuf. rewrite checkWrite_spec, write_spec.
  destruct (storePermitted m w a) eqn:Hst.
  2:{ exists false, v, m. repeat split; congruence. }
  specialize (Hbuf eq_refl). unfold size_ in Hbuf.
  destruct (at_is_Some _ _ Hh) as [lwd Hat].
  unfold commitStore, doRegisterMasking. rewrite Hmk, Hat.
  rewrite (loadT_in_buffer _ _ _ Hbuf). cbn.
  destruct (isMemMappedReg (getAttrib m a)) eqn:Hreg; cbn.
  - assert (w = W4) as ->.
    { revert Hst. unfold storePermitted. rewrite Hreg.
      destruct w; rewrite ?andb_false_r; congruence. }
    destruct (storeT_in_buffer (data_ m) W4 a (N.land v mk) Hbuf) as [d' Hd'].
    rewrite Hd'. cbn.
    eexists true, (N.land v mk), _.
    split; [done|]. split; [done|]. split; [done|]. split; [done|]. congruence.
  - destruct (storeT_in_buffer (data_ m) w a v Hbuf) as [d' Hd'].
    rewrite Hd'. cbn.
    assert (HW4 : mk = allOnes32 -> fits W4 v -> N.land v mk = v).
    { intros -> Hv. change allOnes32 with (N.ones 32).
      rewrite N.land_ones. by apply N.mod_small. }
    destruct w; cbn; eexists true, _, _;
      (split; [done|]; split; [done|]; split; [done|]; split; [congruence|]);
      intros _ _; (split; [done|]); auto.
Qed.

Lemma checkWrite_dry_run_witness :
  exists (b : bool) (v' : N) (m' : Memory),
    checkWrite demoMemory W4 128 255 = Returns (b, v', demoMemory)
    /\ write demoMemory 0 W4 128 255 = Returns (b, m')
    /\ b = storePermitted demoMemory W4 128
    /\ (b = true -> isMemMappedReg (getAttrib demoMemory 128) = true ->
        v' = N.land 255 1
        /\ storeT (data_ demoMemory) W4 128 v' = Returns (data_ m'))
    /\ (b = true -> isMemMappedReg (getAttrib demoMemory 128) = false ->
        storeT (data_ demoMemory) W4 128 255 = Returns (data_ m')
        /\ (1 = allOnes32 -> fits W4 255 -> v' = 255)).
Proof.
  apply (checkWrite_dry_run demoMemory 0 W4 128 255 1).
  - vm_compute. eauto.
  - vm_compute. reflexivity.
  - intros _. vm_compute. discriminate.
Defined.

(** ** Last-write information *)

(** C4.  Hart 0 stores [0xDEADBEEF] over four zero bytes at address 4.
    The three-argument [getLastWriteOldValue] then returns size 4 and
    address 4, but hands back the value just written and not the previous
    contents 0, which only the two-argument overload returns. *)
Lemma getLastWriteOldValue_returns_new_value :
  loadT (data_ demoMemory) W4 4 = Returns 0
  /\ exists m',
       write demoMemory 0 W4 4 3735928559 = Returns (true, m')
       /\ getLastWriteOldValue m' 0 0 0 = Returns (4, 4, 3735928559)
       /\ getLastWriteOldValue_value m' 0 0 = Returns (4, 0).
Proof.
  split; [vm_compute; reflexivity|].
  eexists. repeat split; vm_compute; reflexivity.
Qed.

(** Whatever was stored, the three-argument [getLastWriteOldValue] agrees
    with [getLastWriteNewValue]. *)
Lemma getLastWriteOldValue_is_NewValue (m : Memory) (h addr value : N) :
  getLastWriteOldValue m h addr value = getLastWriteNewValue m h addr value.
Proof. reflexivity. Qed.

(** After any successful store outside the register pages, of [v] over the
    previous contents [prev]: the three-argument getter yields [v], the
    two-argument getter yields [prev]. *)
Lemma last_write_getters_after_write (m m' : Memory) (h : N) (w : width)
    (a v addr0 value0 : N) :
  isMemMappedReg (getAttrib m a) = false ->
  write m h w a v = Returns (true, m') ->
  exists prev,
    loadT (data_ m) w a = Returns prev
    /\ getLastWriteOldValue m' h addr0 value0 = Returns (sizeof w, a, v)
    /\ getLastWriteNewValue m' h addr0 value0 = Returns (sizeof w, a, v)
    /\ getLastWriteOldValue_value m' h value0 = Returns (sizeof w, prev).
Proof.
  intros Hreg Hwr.
  assert (Hlt : (N.to_nat h < length (lastWriteData_ m))%nat).
  { rewrite write_spec in Hwr. destruct (storePermitted m w a); [|discriminate].
    unfold commitStore in Hwr. rewrite Hreg in Hwr. cbn in Hwr.
    unfold at_ in Hwr. destruct (lastWriteData_ m !! N.to_nat h) eqn:E;
      [|discriminate]. by apply lookup_lt_is_Some. }
  destruct (write_plain_success _ _ _ _ _ _ Hreg Hwr)
    as (_ & prev & d' & Hld & _ & ->).
  exists prev. split; [done|].
  unfold getLastWriteOldValue, getLastWriteNewValue, getLastWriteOldValue_value, at_.
  cbn [lastWriteData_ with_lastWriteData].
  rewrite list_lookup_insert_eq by done. cbn.
  by destruct w.
Qed.

(** ** Reservations *)

Lemma invalidateLoop_lookup (h addr storeSize : N) (rs : list Reservation)
    (i : N) (k : nat) :
  invalidateLoop h addr storeSize i rs !! k
  = invalidateStep h addr storeSize (i + N.of_nat k) <$> rs !! k.
Proof.
  revert i k. induction rs as [|res rest IH]; intros i k; [done|].
  destruct k as [|k]; cbn [invalidateLoop].
  - cbn. by rewrite N.add_0_r.
  - cbn [lookup list_lookup]. rewrite IH. do 2 f_equal. lia.
Qed.

Lemma invalidateLoop_length (h addr storeSize i : N) (rs : list Reservation) :
  length (invalidateLoop h addr storeSize i rs) = length rs.
Proof. revert i; induction rs as [|res rest IH]; intros i; cbn; [done | by rewrite IH]. Qed.

(** With a store of at least one byte and a reservation of at least one
    byte, the test of the loop is the intersection of the two intervals. *)
Lemma overlap_test_intersect (ra rs addr storeSize : N) :
  0 < storeSize -> 0 < rs ->
  ((ra <=? addr) && (addr - ra <? rs) || (addr <? ra) && (ra - addr <? storeSize) = true
   <-> intervalsIntersect ra rs addr storeSize).
Proof.
  intros Hs Hr. unfold intervalsIntersect.
  rewrite orb_true_iff, !andb_true_iff, !N.leb_le, !N.ltb_lt. split.
  - intros [[H1 H2]|[H1 H2]]; [exists addr | exists ra]; lia.
  - intros (x & H1 & H2). lia.
Qed.

Lemma invalidateStep_cases (h addr storeSize i : N) (res : Reservation) :
  let res' := invalidateStep h addr storeSize i res in
  res_addr_ res' = res_addr_ res
  /\ res_size_ res' = res_size_ res
  /\ (i = h -> res' = res)
  /\ (i <> h ->
      res' = if (res_addr_ res <=? addr) && (addr - res_addr_ res <? res_size_ res)
                || (addr <? res_addr_ res) && (res_addr_ res - addr <? storeSize)
             then res_invalidate res else res).
Proof.
  unfold invalidateStep. destruct (N.eqb_spec i h) as [->|Hne].
  - repeat split; congruence.
  - destruct ((res_addr_ res <=? addr) && (addr - res_addr_ res <? res_size_ res));
      [|destruct ((addr <? res_addr_ res) && (res_addr_ res - addr <? storeSize))];
      repeat split; congruence.
Qed.

(** C5 (as amended).  [invalidateOtherHartLr(h, addr, storeSize)] keeps
    the number of slots, never touches an address or a size, and leaves
    the slot of hart [h] as it is.  For a hart [i] other than [h], when the
    store and the reservation each cover at least one byte, the slot is
    set Invalid if the intervals [[res.addr, res.addr+res.size)] and
    [[addr, addr+storeSize)] intersect and keeps its validity if not. *)
Theorem invalidateOtherHartLr_overlap (m : Memory) (h addr storeSize i : N)
    (res : Reservation) :
  reservations_ m !! N.to_nat i = Some res ->
  exists res',
    reservations_ (invalidateOtherHartLr m h addr storeSize) !! N.to_nat i = Some res'
    /\ res_addr_ res' = res_addr_ res
    /\ res_size_ res' = res_size_ res
    /\ (i = h -> res' = res)
    /\ (i <> h -> 0 < storeSize -> 0 < res_size_ res ->
        (intervalsIntersect (res_addr_ res) (res_size_ res) addr storeSize ->
         res_valid_ res' = false)
        /\ (~ intervalsIntersect (res_addr_ res) (res_size_ res) addr storeSize ->
            res' = res)).
Proof.
  intros Hres.
  exists (invalidateStep h addr storeSize i res). split.
  { cbn. rewrite invalidateLoop_lookup, Hres. cbn.
    by rewrite N.add_0_l, N2Nat.id. }
  pose proof (invalidateStep_cases h addr storeSize i res) as (Ha & Hs & Hsame & Hother).
  split; [done|]. split; [done|]. split; [done|].
  intros Hne Hst Hrs. rewrite (Hother Hne).
  pose proof (overlap_test_intersect (res_addr_ res) (res_size_ res) addr
                storeSize Hst Hrs) as Hov.
  destruct ((res_addr_ res <=? addr) && (addr - res_addr_ res <? res_size_ res)
            || (addr <? res_addr_ res) && (res_addr_ res - addr <? storeSize)).
  - split; [done|]. intros Hno. destruct Hno. by apply Hov.
  - split; [|done]. intros Hint. apply Hov in Hint. discriminate.
Qed.

Lemma invalidateOtherHartLr_overlap_witness :
  exists res',
    reservations_ (invalidateOtherHartLr demoReserved 0 102 4) !! N.to_nat 1 = Some res'
    /\ res_addr_ res' = 100
    /\ res_size_ res' = 4
    /\ (1 = 0 -> res' = mkReservation 100 4 true)
    /\ (1 <> 0 -> 0 < 4 -> 0 < 4 ->
        (intervalsIntersect 100 4 102 4 -> res_valid_ res' = false)
        /\ (~ intervalsIntersect 100 4 102 4 -> res' = mkReservation 100 4 true)).
Proof.
  apply (invalidateOtherHartLr_overlap demoReserved 0 102 4 1 (mkReservation 100 4 true)).
  vm_compute. reflexivity.
Defined.

(** C5 as stated fails for an empty store interval: hart 1 holds a valid
    reservation of [[100, 104)], hart 0 calls
    [invalidateOtherHartLr(0, 101, 0)]; the interval [[101, 101)] meets no
    interval, yet the reservation of hart 1 becomes Invalid. *)
Lemma invalidateOtherHartLr_empty_store :
  reservations_ demoReserved !! 1%nat = Some (mkReservation 100 4 true)
  /\ ~ intervalsIntersect 100 4 101 0
  /\ reservations_ (invalidateOtherHartLr demoReserved 0 101 0) !! 1%nat
     = Some (mkReservation 100 4 false).
Proof.
  split; [reflexivity|]. split; [|vm_compute; reflexivity].
  intros (x & _ & H). lia.
Qed.

(** Likewise for an empty reservation: hart 1 holds a valid reservation
    of no byte at 100; the store of hart 0 to [[98, 102)] invalidates it. *)
Lemma invalidateOtherHartLr_empty_reservation :
  exists m,
    makeLr demoMemory 1 100 0 = Returns m
    /\ ~ intervalsIntersect 100 0 98 4
    /\ reservations_ (invalidateOtherHartLr m 0 98 4) !! 1%nat
       = Some (mkReservation 100 0 false).
Proof.
  eexists. split; [vm_compute; reflexivity|].
  split; [|vm_compute; reflexivity].
  intros (x & H & _). lia.
Qed.

(** ** Memory mapped registers *)

Lemma land3_mod4 (a : N) : N.land a 3 = a mod 4.
Proof. change 3 with (N.ones 2). apply N.land_ones. Qed.

Lemma aligned_no_crossing (m : Memory) (a : N) :
  N.land a 3 = 0 -> crossesPage m (sizeof W4) a = false.
Proof. intros H. unfold crossesPage. cbn [sizeof]. change (4 - 1) with 3. by rewrite H. Qed.

Lemma register_word_permitted (m : Memory) (a : N) :
  isMemMappedReg (getAttrib m a) = true ->
  N.land a 3 = 0 ->
  loadPermitted m W4 a = isRead (getAttrib m a)
  /\ storePermitted m W4 a = isWrite (getAttrib m a).
Proof.
  intros Hreg Hal. unfold loadPermitted, storePermitted.
  rewrite (aligned_no_crossing m a Hal), Hreg, Hal. cbn.
  by rewrite !andb_true_r.
Qed.

Lemma register_misaligned_refused (m : Memory) (w : width) (a : N) :
  isMemMappedReg (getAttrib m a) = true ->
  w <> W4 \/ N.land a 3 <> 0 ->
  loadPermitted m w a = false /\ storePermitted m w a = false.
Proof.
  intros Hreg Hbad. unfold loadPermitted, storePermitted. rewrite Hreg.
  assert (match w with W4 => N.land a 3 =? 0 | _ => false end = false) as ->.
  { destruct w; try done. destruct Hbad as [?|Hbad]; [done|].
    by apply N.eqb_neq. }
  by rewrite !andb_false_r.
Qed.

(** C6 (as amended).  On a register page a read is served only when it is
    four bytes wide and word-aligned, exactly as a write is: any other
    width and any 4-byte access at a non-word-aligned address returns
    false, for [read] and for [write] alike.  A word-aligned 4-byte read of
    a readable register page inside the buffer succeeds and returns the
    stored word. *)
Theorem register_read_alignment (m : Memory) (w : width) (a : N) :
  isMemMappedReg (getAttrib m a) = true ->
  (w <> W4 \/ N.land a 3 <> 0 ->
   read m w a = Returns None
   /\ forall h v, write m h w a v = Returns (false, m))
  /\ (w = W4 -> N.land a 3 = 0 -> isRead (getAttrib m a) = true ->
      a + 4 <= size_ m ->
      read m w a
      = Returns (Some (decodeLE (take 4 (drop (N.to_nat a) (data_ m)))))).
Proof.
  intros Hreg. split.
  - intros Hbad.
    destruct (register_misaligned_refused m w a Hreg Hbad) as [Hl Hs].
    split; [by rewrite read_spec, Hl|]. intros h v. by rewrite write_spec, Hs.
  - intros -> Hal Hrd Hbuf. rewrite read_spec.
    destruct (register_word_permitted m a Hreg Hal) as [-> _]. rewrite Hrd.
    by rewrite (loadT_in_buffer (data_ m) W4 a Hbuf).
Qed.

Lemma register_read_alignment_witness :
  (W4 <> W4 \/ N.land 129 3 <> 0 ->
   read demoMemory W4 129 = Returns None
   /\ forall h v, write demoMemory h W4 129 v = Returns (false, demoMemory))
  /\ (W4 = W4 -> N.land 129 3 = 0 -> isRead (getAttrib demoMemory 129) = true ->
      129 + 4 <= size_ demoMemory ->
      read demoMemory W4 129
      = Returns (Some (decodeLE (take 4 (drop (N.to_nat 129) (data_ demoMemory)))))).
Proof.
  apply (register_read_alignment demoMemory W4 129).
  vm_compute. reflexivity.
Defined.

(** C6 as stated fails: address 129 lies in the readable register page
    [[128, 192)] of [demoMemory], the four bytes stay inside that page,
    and [readWord(129)] returns false. *)
Lemma readWord_misaligned_register_fails :
  isMemMappedReg (getAttrib demoMemory 129) = true
  /\ isRead (getAttrib demoMemory 129) = true
  /\ crossesPage demoMemory 4 129 = false
  /\ readWord demoMemory 129 = Returns None.
Proof. repeat split; vm_compute; reflexivity. Qed.

Lemma land_mask_fits (v mk : N) :
  v < 2 ^ 32 -> N.land v mk mod 2 ^ 32 = N.land v mk.
Proof.
  intros Hv. rewrite <- N.land_ones.
  rewrite <- N.land_assoc, (N.land_comm mk), N.land_assoc, N.land_ones.
  by rewrite N.mod_small.
Qed.

(** A word-aligned word ends inside its page when pages hold at least four
    bytes. *)
Lemma aligned_word_in_page (s a : N) :
  2 <= s -> N.land a 3 = 0 ->
  a + 4 <= N.shiftl (N.shiftr a s) s + 2 ^ s.
Proof.
  intros Hs Hal. rewrite land3_mod4 in Hal.
  rewrite N.shiftr_div_pow2, N.shiftl_mul_pow2.
  replace s with (2 + (s - 2)) by lia. rewrite N.pow_add_r.
  change (2 ^ 2) with 4. set (P := 2 ^ (s - 2)).
  assert (HP : P <> 0) by (apply N.pow_nonzero; lia).
  pose proof (N.Div0.div_mod a 4) as Ha. rewrite Hal, N.add_0_r in Ha.
  set (k := a / 4) in *.
  rewrite <- N.Div0.div_div. fold k.
  pose proof (N.Div0.div_mod k P) as Hk.
  pose proof (N.mod_upper_bound k P HP) as Hlt.
  nia.
Qed.

(** C7.  [R] is a word-aligned address of a register page (readable and
    writable, as register pages are installed) with write mask [mk].
    [writeWord(h, R, v)] succeeds and the [readWord(R)] that follows
    returns [v & mk]; [poke(R, v)] succeeds and the [readWord(R)] that
    follows returns [v] itself.  The read applies no mask in either case. *)
Theorem register_mask_write_vs_poke (m : Memory) (h R v mk : N) :
  isMemMappedReg (getAttrib m R) = true ->
  isRead (getAttrib m R) = true ->
  isWrite (getAttrib m R) = true ->
  N.land R 3 = 0 ->
  getMemoryMappedMask m R = Returns mk ->
  is_Some (lastWriteData_ m !! N.to_nat h) ->
  fits W4 v ->
  R + 4 <= size_ m ->
  pageSize_ m = 2 ^ pageShift_ m ->
  2 <= pageShift_ m ->
  R + pageSize_ m < 2 ^ 64 ->
  (exists m1, writeWord m h R v = Returns (true, m1)
              /\ readWord m1 R = Returns (Some (N.land v mk)))
  /\ (exists m2, poke m W4 R v = Returns (true, m2)
                 /\ readWord m2 R = Returns (Some v)).
Proof.
  intros Hreg Hrd Hwr Hal Hmk Hh Hv Hbuf Hps Hsh Hnw.
  destruct (register_word_permitted m R Hreg Hal) as [Hl Hs].
  rewrite Hrd in Hl. rewrite Hwr in Hs. unfold size_ in Hbuf.
  split.
  - unfold writeWord, readWord. rewrite write_spec, Hs.
    unfold commitStore, doRegisterMasking. rewrite Hreg, Hmk. cbn.
    destruct (at_is_Some _ _ Hh) as [lwd ->]. cbn.
    rewrite (loadT_in_buffer (data_ m) W4 R Hbuf). cbn.
    destruct (storeT_in_buffer (data_ m) W4 R (N.land v mk) Hbuf) as [d' Hd'].
    rewrite Hd'. cbn. eexists. split; [done|].
    rewrite read_spec.
    change (loadPermitted _ W4 R) with (loadPermitted m W4 R). rewrite Hl.
    cbn [data_ with_lastWriteData with_data].
    rewrite (loadT_storeT _ _ _ _ _ Hd'). cbn.
    by rewrite land_mask_fits.
  - unfold poke, readWord.
    assert (Hmap : isMapped (getAttrib m R) = true).
    { unfold isMapped. unfold isRead in Hrd. by rewrite Hrd. }
    rewrite Hmap, Hreg, Hal. cbn [negb sizeof N.eqb].
    pose proof (aligned_word_in_page (pageShift_ m) R Hsh Hal) as Hin.
    assert (Hstart : N.shiftl (N.shiftr R (pageShift_ m)) (pageShift_ m) <= R).
    { rewrite N.shiftr_div_pow2, N.shiftl_mul_pow2.
      rewrite N.mul_comm. apply N.Div0.mul_div_le. }
    unfold getPageStartAddr, wrap at 1 2 3.
    rewrite (N.mod_small (N.shiftl _ _)) by lia.
    rewrite (N.mod_small (_ + pageSize_ m)) by lia.
    rewrite (N.mod_small (R + 4)) by lia.
    destruct (N.ltb_spec (N.shiftl (N.shiftr R (pageShift_ m)) (pageShift_ m)
                          + pageSize_ m) (R + 4)) as [Hlt|_]; [lia|].
    cbn.
    destruct (storeT_in_buffer (data_ m) W4 R v Hbuf) as [d' Hd'].
    rewrite Hd'. cbn. eexists. split; [done|].
    rewrite read_spec.
    change (loadPermitted _ W4 R) with (loadPermitted m W4 R). rewrite Hl.
    cbn [data_ with_data].
    rewrite (loadT_storeT _ _ _ _ _ Hd'). cbn.
    by rewrite N.mod_small.
Qed.

Lemma register_mask_write_vs_poke_witness :
  (exists m1, writeWord demoMemory 0 128 255 = Returns (true, m1)
              /\ readWord m1 128 = Returns (Some 1))
  /\ (exists m2, poke demoMemory W4 128 255 = Returns (true, m2)
                 /\ readWord m2 128 = Returns (Some 255)).
Proof.
  apply (register_mask_write_vs_poke demoMemory 0 128 255 1);
    try (vm_compute; reflexivity).
  - vm_compute. eauto.
  - vm_compute. discriminate.
  - vm_compute. discriminate.
Defined.

(** C10.  After a successful masked register write of [v] under mask [mk]
    the buffer holds [v & mk] and so does the hart's last-write record:
    [getLastWriteNewValue] returns size 4, the address, and [v & mk]. *)
Theorem register_write_records_masked_value (m : Memory) (h a v mk : N) :
  isMemMappedReg (getAttrib m a) = true ->
  isWrite (getAttrib m a) = true ->
  N.land a 3 = 0 ->
  getMemoryMappedMask m a = Returns mk ->
  is_Some (lastWriteData_ m !! N.to_nat h) ->
  a + 4 <= size_ m ->
  exists m',
    write m h W4 a v = Returns (true, m')
    /\ writeRegister m h a v = Returns (true, m')
    /\ storeT (data_ m) W4 a (N.land v mk) = Returns (data_ m')
    /\ forall addr0 value0,
         getLastWriteNewValue m' h addr0 value0 = Returns (4, a, N.land v mk).
Proof.
  intros Hreg Hwr Hal Hmk Hh Hbuf. unfold size_ in Hbuf.
  destruct (register_word_permitted m a Hreg Hal) as [_ Hs]. rewrite Hwr in Hs.
  rewrite write_spec, Hs.
  unfold commitStore, writeRegister, doRegisterMasking. rewrite Hreg, Hmk, Hal. cbn.
  destruct (at_is_Some _ _ Hh) as [lwd ->]. cbn.
  rewrite (loadT_in_buffer (data_ m) W4 a Hbuf). cbn.
  destruct (storeT_in_buffer (data_ m) W4 a (N.land v mk) Hbuf) as [d' ->]. cbn.
  eexists. repeat split.
  intros addr0 value0. unfold getLastWriteNewValue, at_.
  cbn [lastWriteData_ with_lastWriteData].
  rewrite list_lookup_insert_eq by (by apply lookup_lt_is_Some).
  reflexivity.
Qed.

Lemma register_write_records_masked_value_witness :
  exists m',
    write demoMemory 0 W4 128 255 = Returns (true, m')
    /\ writeRegister demoMemory 0 128 255 = Returns (true, m')
    /\ storeT (data_ demoMemory) W4 128 1 = Returns (data_ m')
    /\ forall addr0 value0,
         getLastWriteNewValue m' 0 addr0 value0 = Returns (4, 128, 1).
Proof.
  apply (register_write_records_masked_value demoMemory 0 128 255 1);
    try (vm_compute; reflexivity).
  - vm_compute. eauto.
  - vm_compute. discriminate.
Defined.

(** ** Instruction fetch *)

Lemma readInstHalfWord_spec (m : Memory) (a : N) :
  readInstHalfWord m a =
  if fetchPermitted m 2 a
  then v ← loadT (data_ m) W2 a; Returns (Some v)
  else Returns None.
Proof.
  unfold readInstHalfWord, fetchPermitted, crossesPage.
  replace (a + 2 - 1) with (a + 1) by lia. change (2 - 1) with 1.
  destruct (isExec (getAttrib m a)), (N.land a 1 =? 0),
    (getPageStartAddr m a =? getPageStartAddr m (wrap (a + 1))),
    (isExec (getAttrib m (wrap (a + 1)))), (isIccm (getAttrib m a)),
    (isIccm (getAttrib m (wrap (a + 1)))); reflexivity.
Qed.

Lemma readInstWord_spec (m : Memory) (a : N) :
  readInstWord m a =
  if fetchPermitted m 4 a
  then v ← loadT (data_ m) W4 a; Returns (Some v)
  else Returns None.
Proof.
  unfold readInstWord, fetchPermitted, crossesPage.
  replace (a + 4 - 1) with (a + 3) by lia. change (4 - 1) with 3.
  destruct (isExec (getAttrib m a)), (N.land a 3 =? 0),
    (getPageStartAddr m a =? getPageStartAddr m (wrap (a + 3))),
    (isExec (getAttrib m (wrap (a + 3)))), (isIccm (getAttrib m a)),
    (isIccm (getAttrib m (wrap (a + 3)))); reflexivity.
Qed.

Lemma fetchPermitted_view (m1 m2 : Memory) (n a : N) :
  sameFetchView m1 m2 -> fetchPermitted m1 n a = fetchPermitted m2 n a.
Proof.
  intros (_ & Hsh & Hattr). unfold fetchPermitted, crossesPage, getPageStartAddr.
  rewrite Hsh.
  destruct (Hattr a) as [-> ->].
  destruct (Hattr (wrap (a + n - 1))) as [-> ->]. reflexivity.
Qed.

(** C8.  A fetch is decided by the executable flag of the start page and,
    when a misaligned fetch spans two pages, by the executable flag and the
    ICCM membership of the second page ([fetchPermitted]); the readable and
    DCCM flags play no part (two memories with the same fetch view fetch
    alike).  A half-word fetch at an even address and a word fetch at a
    4-byte aligned address make no crossing check: they need the start page
    executable and nothing more. *)
Theorem instruction_fetch_rules (m : Memory) (a : N) :
  readInstHalfWord m a
  = (if fetchPermitted m 2 a
     then v ← loadT (data_ m) W2 a; Returns (Some v)
     else Returns None)
  /\ readInstWord m a
     = (if fetchPermitted m 4 a
        then v ← loadT (data_ m) W4 a; Returns (Some v)
        else Returns None)
  /\ (N.land a 1 = 0 -> fetchPermitted m 2 a = isExec (getAttrib m a))
  /\ (N.land a 3 = 0 -> fetchPermitted m 4 a = isExec (getAttrib m a))
  /\ (forall m2, sameFetchView m2 m ->
        readInstHalfWord m2 a = readInstHalfWord m a
        /\ readInstWord m2 a = readInstWord m a).
Proof.
  split; [apply readInstHalfWord_spec|]. split; [apply readInstWord_spec|].
  split; [|split].
  - intros H. unfold fetchPermitted, crossesPage. change (2 - 1) with 1.
    rewrite H. cbn. by rewrite andb_true_r.
  - intros H. unfold fetchPermitted, crossesPage. change (4 - 1) with 3.
    rewrite H. cbn. by rewrite andb_true_r.
  - intros m2 Hview.
    rewrite !readInstHalfWord_spec, !readInstWord_spec.
    rewrite !(fetchPermitted_view m2 m _ a Hview).
    destruct Hview as (-> & _). done.
Qed.

(** On [demoMemory]: a fetch from DCCM is refused although the page is
    readable; the half-word at 62 ends its page and is fetched without a
    look at the next page, the word at 62 runs into the DCCM page and is
    refused, and so is the half-word at the odd address 63. *)
Example instruction_fetch_examples :
  readInstWord demoMemory 64 = Returns None
  /\ readInstHalfWord demoMemory 62 = Returns (Some 0)
  /\ readInstWord demoMemory 62 = Returns None
  /\ readInstHalfWord demoMemory 63 = Returns None
  /\ readInstWord demoMemory 192 = Returns (Some 0).
Proof. repeat split; vm_compute; reflexivity. Qed.

(** ** [hasLr] *)

(** C9.  For an existing hart, [hasLr(hart, addr)] returns true exactly
    when the reservation is valid and its address equals [addr]; after
    [makeLr(hart, a, size)] it is true for [addr = a] and false for every
    other address, those inside [[a, a+size)] included. *)
Theorem hasLr_exact_address (m : Memory) (h addr : N) (res : Reservation) :
  reservations_ m !! N.to_nat h = Some res ->
  hasLr m h addr = Returns (res_valid_ res && (res_addr_ res =? addr))
  /\ (hasLr m h addr = Returns true
      <-> res_valid_ res = true /\ res_addr_ res = addr)
  /\ forall a size,
       exists m', makeLr m h a size = Returns m'
                  /\ hasLr m' h a = Returns true
                  /\ (a < addr < a + size -> hasLr m' h addr = Returns false)
                  /\ (addr <> a -> hasLr m' h addr = Returns false).
Proof.
  intros Hres.
  assert (Hhas : hasLr m h addr = Returns (res_valid_ res && (res_addr_ res =? addr))).
  { unfold hasLr, at_. by rewrite Hres. }
  split; [done|]. split.
  - rewrite Hhas. split.
    + intros [= H]. apply andb_true_iff in H as [? ?%N.eqb_eq]. done.
    + intros [-> ->]. by rewrite N.eqb_refl.
  - intros a size. unfold makeLr, at_. rewrite Hres. cbn.
    eexists. split; [done|].
    assert (Hlt : (N.to_nat h < length (reservations_ m))%nat)
      by (by apply lookup_lt_is_Some).
    unfold hasLr, at_. cbn [reservations_ with_reservations].
    rewrite list_lookup_insert_eq by done. cbn.
    split; [by rewrite N.eqb_refl|].
    assert (Hne : addr <> a -> Returns (a =? addr) = Returns false).
    { intros Hne. f_equal. apply N.eqb_neq. congruence. }
    split; [|done]. intros Hin. apply Hne. lia.
Qed.

Lemma hasLr_exact_address_witness :
  hasLr demoReserved 1 102 = Returns (true && (100 =? 102))
  /\ (hasLr demoReserved 1 102 = Returns true <-> true = true /\ 100 = 102)
  /\ forall a size,
       exists m', makeLr demoReserved 1 a size = Returns m'
                  /\ hasLr m' 1 a = Returns true
                  /\ (a < 102 < a + size -> hasLr m' 1 102 = Returns false)
                  /\ (102 <> a -> hasLr m' 1 102 = Returns false).
Proof.
  apply (hasLr_exact_address demoReserved 1 102 (mkReservation 100 4 true)).
  vm_compute. reflexivity.
Defined.

(** * Further properties of the memory *)

(** ** The byte buffer under a typed store *)

Lemma encodeLE_lookup (n : nat) (v : N) (i : nat) :
  (i < n)%nat -> encodeLE n v !! i = Some (v / 256 ^ N.of_nat i mod 256).
Proof.
  revert v i. induction n as [|n IH]; intros v i Hi; [lia|].
  destruct i as [|i]; cbn [encodeLE].
  - cbn. by rewrite N.div_1_r.
  - cbn [lookup list_lookup]. rewrite IH by lia.
    rewrite Nat2N.inj_succ, N.pow_succ_r', N.Div0.div_div. done.
Qed.

Lemma decodeLE_app (l1 l2 : list N) :
  decodeLE (l1 ++ l2) = decodeLE l1 + 256 ^ N.of_nat (length l1) * decodeLE l2.
Proof.
  induction l1 as [|b l1 IH]; cbn [app decodeLE length].
  - cbn. lia.
  - rewrite IH, Nat2N.inj_succ, N.pow_succ_r'. lia.
Qed.

Lemma decodeLE_bound (bs : list N) :
  Forall (fun b => b < 256) bs -> decodeLE bs < 256 ^ N.of_nat (length bs).
Proof.
  induction 1 as [|b bs Hb _ IH]; cbn [decodeLE length]; [cbn; lia|].
  rewrite Nat2N.inj_succ, N.pow_succ_r'. lia.
Qed.

Lemma encodeLE_decodeLE (bs : list N) :
  Forall (fun b => b < 256) bs -> encodeLE (length bs) (decodeLE bs) = bs.
Proof.
  induction 1 as [|b bs Hb _ IH]; [done|].
  cbn [length encodeLE decodeLE].
  assert (Hm : (b + 256 * decodeLE bs) mod 256 = b).
  { rewrite (N.mul_comm 256), N.Div0.mod_add. by apply N.mod_small. }
  assert (Hq : (b + 256 * decodeLE bs) / 256 = decodeLE bs).
  { rewrite (N.mul_comm 256), N.div_add by done. rewrite N.div_small by done. lia. }
  by rewrite Hm, Hq, IH.
Qed.

Lemma encodeLE_bytes (n : nat) (v : N) : Forall (fun b => b < 256) (encodeLE n v).
Proof.
  revert v. induction n as [|n IH]; intros v; cbn [encodeLE]; constructor; [|done].
  by apply N.mod_lt.
Qed.

Lemma storeT_inv (d d' : list N) (w : width) (a v : N) :
  storeT d w a v = Returns d' ->
  a + sizeof w <= N.of_nat (length d)
  /\ d' = take (N.to_nat a) d ++ encodeLE (nbytes w) v
            ++ drop (N.to_nat a + nbytes w) d.
Proof.
  unfold storeT.
  destruct (N.leb_spec (a + sizeof w) (N.of_nat (length d))); [|done].
  by intros [= <-].
Qed.

Lemma storeT_length (d d' : list N) (w : width) (a v : N) :
  storeT d w a v = Returns d' -> length d' = length d.
Proof.
  intros (Hle & ->)%storeT_inv.
  assert (nbytes w = N.to_nat (sizeof w)) by done.
  rewrite !length_app, length_take, length_encodeLE, length_drop. lia.
Qed.

Lemma storeT_lookup_outside (d d' : list N) (w : width) (a v : N) (i : nat) :
  storeT d w a v = Returns d' ->
  N.of_nat i < a \/ a + sizeof w <= N.of_nat i ->
  d' !! i = d !! i.
Proof.
  intros (Hle & ->)%storeT_inv Hi.
  assert (Hn : nbytes w = N.to_nat (sizeof w)) by done.
  assert (Hlen : length (take (N.to_nat a) d) = N.to_nat a)
    by (rewrite length_take; lia).
  destruct Hi as [Hi|Hi].
  - rewrite lookup_app_l by lia. apply lookup_take_lt. lia.
  - rewrite lookup_app_r by lia. rewrite lookup_app_r by (rewrite length_encodeLE; lia).
    rewrite lookup_drop, Hlen, length_encodeLE. f_equal. lia.
Qed.

Lemma storeT_lookup_inside (d d' : list N) (w : width) (a v : N) (i : nat) :
  storeT d w a v = Returns d' ->
  (i < nbytes w)%nat ->
  d' !! (N.to_nat a + i)%nat = Some (v / 256 ^ N.of_nat i mod 256).
Proof.
  intros (Hle & ->)%storeT_inv Hi.
  assert (Hlen : length (take (N.to_nat a) d) = N.to_nat a)
    by (rewrite length_take; lia).
  rewrite lookup_app_r by lia. rewrite Hlen.
  replace (N.to_nat a + i - N.to_nat a)%nat with i by lia.
  rewrite lookup_app_l by (by rewrite length_encodeLE).
  by apply encodeLE_lookup.
Qed.

Lemma storeT_bytes (d d' : list N) (w : width) (a v : N) :
  storeT d w a v = Returns d' ->
  Forall (fun b => b < 256) d -> Forall (fun b => b < 256) d'.
Proof.
  intros (Hle & ->)%storeT_inv Hd.
  rewrite !Forall_app. split; [by apply Forall_take|].
  split; [apply encodeLE_bytes | by apply Forall_drop].
Qed.

(** A typed load sees only the bytes it covers. *)
Lemma loadT_agree (d1 d2 : list N) (w : width) (a : N) :
  length d1 = length d2 ->
  (forall i : nat, a <= N.of_nat i < a + sizeof w -> d1 !! i = d2 !! i) ->
  loadT d1 w a = loadT d2 w a.
Proof.
  intros Hlen Hag. unfold loadT. rewrite Hlen.
  destruct (N.leb_spec (a + sizeof w) (N.of_nat (length d2))) as [Hle|]; [|done].
  do 2 f_equal. apply list_eq. intros i.
  assert (Hn : nbytes w = N.to_nat (sizeof w)) by done.
  destruct (decide (i < nbytes w)%nat) as [Hi|Hi].
  - rewrite !lookup_take_lt, !lookup_drop by done. apply Hag. lia.
  - rewrite !lookup_take_ge by lia. done.
Qed.

Lemma loadT_W1 (d : list N) (x b : N) :
  d !! N.to_nat x = Some b -> loadT d W1 x = Returns b.
Proof.
  intros Hb. unfold loadT. pose proof (lookup_lt_Some _ _ _ Hb) as Hlt.
  destruct (N.leb_spec (x + sizeof W1) (N.of_nat (length d))) as [_|Hgt];
    [|change (sizeof W1) with 1 in Hgt; lia].
  destruct (drop (N.to_nat x) d) as [|b' rest] eqn:Hdrop.
  - apply (f_equal length) in Hdrop. rewrite length_drop in Hdrop. cbn in Hdrop. lia.
  - assert (Hhd : drop (N.to_nat x) d !! 0%nat = Some b)
      by (by rewrite lookup_drop, Nat.add_0_r).
    rewrite Hdrop in Hhd. injection Hhd as ->.
    change (nbytes W1) with 1%nat. cbn [take decodeLE]. rewrite take_0. cbn [decodeLE].
    f_equal. lia.
Qed.

(** ** What a store is and what it leaves alone *)

(** Every way [write] can return. *)
Lemma write_inv (m m' : Memory) (h : N) (w : width) (a v : N) (b : bool) :
  write m h w a v = Returns (b, m') ->
  (b = false /\ m' = m /\ storePermitted m w a = false)
  \/ (b = true /\ storePermitted m w a = true
      /\ exists v' prev d' lwd,
           (isMemMappedReg (getAttrib m a) = false -> v' = v)
           /\ lastWriteData_ m !! N.to_nat h = Some lwd
           /\ loadT (data_ m) w a = Returns prev
           /\ storeT (data_ m) w a v' = Returns d'
           /\ m' = with_lastWriteData
                     (<[N.to_nat h := mkLastWriteData (sizeof w) a v' prev]>
                        (lastWriteData_ m))
                     (with_data d' m)).
Proof.
  rewrite write_spec. destruct (storePermitted m w a).
  2:{ intros [= <- <-]. by left. }
  unfold commitStore.
  destruct (if isMemMappedReg (getAttrib m a) then _ else _) as [v'| |] eqn:Hv;
    cbn; try discriminate.
  unfold at_. destruct (lastWriteData_ m !! N.to_nat h) as [lwd|] eqn:Hl;
    cbn; try discriminate.
  destruct (loadT (data_ m) w a) as [prev| |] eqn:Hld; cbn; try discriminate.
  destruct (storeT (data_ m) w a v') as [d'| |] eqn:Hst; cbn; try discriminate.
  intros [= <- <-]. right. split; [done|]. split; [done|].
  exists v', prev, d', lwd. split; [|done].
  intros Hreg. rewrite Hreg in Hv. congruence.
Qed.

(** Every way [poke] can return. *)
Lemma poke_inv (m m' : Memory) (w : width) (a v : N) (b : bool) :
  poke m w a v = Returns (b, m') ->
  (b = false /\ m' = m)
  \/ (b = true /\ isMapped (getAttrib m a) = true
      /\ exists d', storeT (data_ m) w a v = Returns d' /\ m' = with_data d' m).
Proof.
  unfold poke. destruct (isMapped (getAttrib m a)); cbn [negb];
    [|intros [= <- <-]; by left].
  destruct (negb (if _ <? _ then _ else true)); [intros [= <- <-]; by left|].
  assert (Hplain : forall r : outcome (bool * Memory),
             r = (data' ← storeT (data_ m) w a v; Returns (true, with_data data' m)) ->
             r = Returns (b, m') ->
             b = true /\ exists d', storeT (data_ m) w a v = Returns d'
                                    /\ m' = with_data d' m).
  { intros r ->. destruct (storeT (data_ m) w a v) as [d'| |]; cbn; try discriminate.
    intros [= <- <-]. eauto. }
  destruct w, (isMemMappedReg (getAttrib m a)); try (intros [= <- <-]; by left);
    try (intros H; right; destruct (Hplain _ eq_refl H) as [-> ?]; by split).
  destruct (negb (N.land a 3 =? 0)); [intros [= <- <-]; by left|].
  intros H; right; destruct (Hplain _ eq_refl H) as [-> ?]; by split.
Qed.

(** X1.  Whatever [write] returns, it leaves the page geometry, the
    attribute table, the mask table and the reservations as they are,
    keeps the size of the buffer and the number of harts, changes no byte
    outside [[a, a + sizeof(T))] and no last-write record but that of the
    writing hart. *)
Theorem write_frame (m m' : Memory) (h : N) (w : width) (a v : N) (b : bool) :
  write m h w a v = Returns (b, m') ->
  pageSize_ m' = pageSize_ m
  /\ pageShift_ m' = pageShift_ m
  /\ attribs_ m' = attribs_ m
  /\ masks_ m' = masks_ m
  /\ reservations_ m' = reservations_ m
  /\ length (data_ m') = length (data_ m)
  /\ length (lastWriteData_ m') = length (lastWriteData_ m)
  /\ (forall i : nat, N.of_nat i < a \/ a + sizeof w <= N.of_nat i ->
        data_ m' !! i = data_ m !! i)
  /\ (forall h' : nat, h' <> N.to_nat h ->
        lastWriteData_ m' !! h' = lastWriteData_ m !! h').
Proof.
  intros [(-> & -> & _)|(-> & _ & v' & prev & d' & lwd & _ & Hl & _ & Hst & ->)]%write_inv;
    [done|].
  cbn. repeat split.
  - by apply storeT_length in Hst.
  - by rewrite length_insert.
  - intros i Hi. by apply (storeT_lookup_outside _ _ _ _ _ _ Hst).
  - intros h' Hne. by rewrite list_lookup_insert_ne.
Qed.

Lemma write_frame_witness :
  exists m',
    write demoMemory 0 W4 5 3735928559 = Returns (true, m')
    /\ data_ m' !! 9%nat = data_ demoMemory !! 9%nat
    /\ lastWriteData_ m' !! 1%nat = lastWriteData_ demoMemory !! 1%nat.
Proof.
  eexists. split; [vm_compute; reflexivity|].
  match goal with |- data_ ?m' !! _ = _ /\ _ =>
    destruct (write_frame demoMemory m' 0 W4 5 3735928559 true)
      as (_ & _ & _ & _ & _ & _ & _ & Hd & Hl); [vm_compute; reflexivity|]
  end.
  split; [apply Hd; right; vm_compute; discriminate | apply Hl; discriminate].
Defined.

(** X2.  [poke] stores without a trace: whatever it returns, the
    last-write records, the reservations and the tables are as before, the
    buffer keeps its size and only bytes of [[a, a + sizeof(T))] change. *)
Theorem poke_frame (m m' : Memory) (w : width) (a v : N) (b : bool) :
  poke m w a v = Returns (b, m') ->
  lastWriteData_ m' = lastWriteData_ m
  /\ reservations_ m' = reservations_ m
  /\ attribs_ m' = attribs_ m
  /\ masks_ m' = masks_ m
  /\ pageSize_ m' = pageSize_ m
  /\ pageShift_ m' = pageShift_ m
  /\ length (data_ m') = length (data_ m)
  /\ (forall i : nat, N.of_nat i < a \/ a + sizeof w <= N.of_nat i ->
        data_ m' !! i = data_ m !! i).
Proof.
  intros [(-> & ->)|(-> & _ & d' & Hst & ->)]%poke_inv; [done|].
  cbn. repeat split.
  - by apply storeT_length in Hst.
  - intros i Hi. by apply (storeT_lookup_outside _ _ _ _ _ _ Hst).
Qed.

Lemma poke_frame_witness :
  exists m',
    poke demoMemory W4 196 3735928559 = Returns (true, m')
    /\ lastWriteData_ m' = lastWriteData_ demoMemory
    /\ data_ m' !! 200%nat = data_ demoMemory !! 200%nat.
Proof.
  eexists. split; [vm_compute; reflexivity|].
  match goal with |- lastWriteData_ ?m' = _ /\ _ =>
    destruct (poke_frame demoMemory m' W4 196 3735928559 true)
      as (Hl & _ & _ & _ & _ & _ & _ & Hd); [vm_compute; reflexivity|]
  end.
  split; [exact Hl | apply Hd; right; vm_compute; discriminate].
Defined.

(** X3.  A store does not disturb what lies elsewhere: after
    [write<T>(h, a, v)], whatever it returned, a [read<T2>(a2)] of bytes
    disjoint from [[a, a + sizeof(T))] gives what it gave before, and so do
    the instruction fetches. *)
Theorem read_after_disjoint_write (m m' : Memory) (h : N) (w w2 : width)
    (a a2 v : N) (b : bool) :
  write m h w a v = Returns (b, m') ->
  a2 + sizeof w2 <= a \/ a + sizeof w <= a2 ->
  read m' w2 a2 = read m w2 a2
  /\ (w2 = W2 -> readInstHalfWord m' a2 = readInstHalfWord m a2)
  /\ (w2 = W4 -> readInstWord m' a2 = readInstWord m a2).
Proof.
  intros [(-> & -> & _)|(-> & _ & v' & prev & d' & lwd & _ & _ & _ & Hst & ->)]%write_inv
    Hdis; [done|].
  assert (Hld : loadT d' w2 a2 = loadT (data_ m) w2 a2).
  { apply loadT_agree; [by apply storeT_length in Hst|].
    intros i Hi. apply (storeT_lookup_outside _ _ _ _ _ _ Hst). lia. }
  split; [|split].
  - rewrite !read_spec.
    change (loadPermitted _ w2 a2) with (loadPermitted m w2 a2).
    cbn [data_ with_lastWriteData with_data]. by rewrite Hld.
  - intros ->. rewrite !readInstHalfWord_spec.
    change (fetchPermitted _ 2 a2) with (fetchPermitted m 2 a2).
    cbn [data_ with_lastWriteData with_data]. by rewrite Hld.
  - intros ->. rewrite !readInstWord_spec.
    change (fetchPermitted _ 4 a2) with (fetchPermitted m 4 a2).
    cbn [data_ with_lastWriteData with_data]. by rewrite Hld.
Qed.

Lemma read_after_disjoint_write_witness :
  exists m1 m2,
    poke demoMemory W4 8 305419896 = Returns (true, m1)
    /\ write m1 0 W4 4 3735928559 = Returns (true, m2)
    /\ read m1 W4 8 = Returns (Some 305419896)
    /\ read m2 W4 8 = read m1 W4 8.
Proof.
  eexists. eexists. split; [vm_compute; reflexivity|].
  split; [vm_compute; reflexivity|]. split; [vm_compute; reflexivity|].
  match goal with |- read ?m2 _ _ = read ?m1 _ _ =>
    exact (proj1 (read_after_disjoint_write m1 m2 0 W4 W4 4 8 3735928559 true
                    ltac:(vm_compute; reflexivity)
                    ltac:(right; vm_compute; discriminate)))
  end.
Defined.

(** X4.  Byte order: after a successful store of [v] outside the register
    pages, [readByte(a + i)] returns byte [i] of [v], least significant
    byte first, for every [i] below [sizeof(T)] whose page is readable and
    holds no registers. *)
Theorem write_then_readByte (m m' : Memory) (h : N) (w : width) (a v i : N) :
  isMemMappedReg (getAttrib m a) = false ->
  write m h w a v = Returns (true, m') ->
  i < sizeof w ->
  isRead (getAttrib m (a + i)) = true ->
  isMemMappedReg (getAttrib m (a + i)) = false ->
  readByte m' (a + i) = Returns (Some (v / 256 ^ i mod 256)).
Proof.
  intros Hreg Hwr Hi Hrd Hreg'.
  destruct (write_plain_success _ _ _ _ _ _ Hreg Hwr)
    as (_ & prev & d' & _ & Hst & ->).
  unfold readByte.
  change (getAttrib _ (a + i)) with (getAttrib m (a + i)).
  rewrite Hrd, Hreg'. cbn [negb data_ with_lastWriteData with_data].
  assert (Hlk : d' !! N.to_nat (a + i) = Some (v / 256 ^ i mod 256)).
  { rewrite N2Nat.inj_add.
    rewrite (storeT_lookup_inside _ _ _ _ _ (N.to_nat i) Hst)
      by (unfold nbytes; lia).
    by rewrite N2Nat.id. }
  by rewrite (loadT_W1 _ _ _ Hlk).
Qed.

Lemma write_then_readByte_witness :
  exists m',
    write demoMemory 0 W4 4 3735928559 = Returns (true, m')
    /\ readByte m' (4 + 1) = Returns (Some 190).
Proof.
  eexists. split; [vm_compute; reflexivity|].
  match goal with |- readByte ?m' _ = _ =>
    apply (write_then_readByte demoMemory m' 0 W4 4 3735928559 1)
  end; vm_compute; reflexivity.
Defined.

Lemma storeT_restore (d d' : list N) (w : width) (a v prev : N) :
  Forall (fun b => b < 256) d ->
  loadT d w a = Returns prev ->
  storeT d w a v = Returns d' ->
  storeT d' w a prev = Returns d.
Proof.
  intros Hd Hld Hst. pose proof (storeT_length _ _ _ _ _ Hst) as Hlen.
  destruct (storeT_inv _ _ _ _ _ Hst) as (Hle & ->).
  rewrite (loadT_in_buffer d w a Hle) in Hld. injection Hld as <-.
  assert (Hn : nbytes w = N.to_nat (sizeof w)) by done.
  assert (Hta : length (take (N.to_nat a) d) = N.to_nat a)
    by (rewrite length_take; lia).
  unfold storeT. rewrite Hlen.
  destruct (N.leb_spec (a + sizeof w) (N.of_nat (length d))); [|lia].
  f_equal.
  rewrite take_app_length' by done.
  rewrite (app_assoc (take (N.to_nat a) d) (encodeLE (nbytes w) v)).
  rewrite drop_app_length' by (rewrite length_app, length_encodeLE; lia).
  assert (Htw : length (take (nbytes w) (drop (N.to_nat a) d)) = nbytes w)
    by (rewrite length_take, length_drop; lia).
  rewrite <- Htw at 1. rewrite encodeLE_decodeLE
    by (by apply Forall_take, Forall_drop).
  rewrite <- drop_drop, take_drop. apply take_drop.
Qed.

(** X5.  Rollback: after a successful store outside the register pages
    into a buffer of bytes, [getLastWriteOldValue(h, value)] returns the
    size and the previous contents, and writing that value back to the same
    address succeeds and restores the byte buffer. *)
Theorem write_back_previous (m m1 : Memory) (h : N) (w : width) (a v : N) :
  Forall (fun b => b < 256) (data_ m) ->
  isMemMappedReg (getAttrib m a) = false ->
  write m h w a v = Returns (true, m1) ->
  exists prev m2,
    (forall x, getLastWriteOldValue_value m1 h x = Returns (sizeof w, prev))
    /\ write m1 h w a prev = Returns (true, m2)
    /\ data_ m2 = data_ m.
Proof.
  intros Hd Hreg Hwr.
  destruct (write_inv _ _ _ _ _ _ _ Hwr)
    as [(? & _)|(_ & Hperm & v' & prev & d' & lwd & Hv & Hl & Hld & Hst & ->)];
    [done|].
  rewrite (Hv Hreg) in *. clear Hv.
  assert (Hlt : (N.to_nat h < length (lastWriteData_ m))%nat)
    by (by apply lookup_lt_is_Some).
  exists prev. eexists. split; [|split].
  - intros x. unfold getLastWriteOldValue_value, at_.
    cbn [lastWriteData_ with_lastWriteData].
    rewrite list_lookup_insert_eq by done. cbn. by destruct w.
  - rewrite write_spec.
    change (storePermitted _ w a) with (storePermitted m w a). rewrite Hperm.
    unfold commitStore.
    change (getAttrib _ a) with (getAttrib m a). rewrite Hreg. cbn.
    unfold at_. rewrite list_lookup_insert_eq by done. cbn.
    rewrite (loadT_storeT _ _ _ _ _ Hst). cbn.
    rewrite (storeT_restore _ _ _ _ _ _ Hd Hld Hst). cbn. reflexivity.
  - reflexivity.
Qed.

Lemma write_back_previous_witness :
  exists m1 prev m2,
    write demoMemory 0 W4 4 3735928559 = Returns (true, m1)
    /\ (forall x, getLastWriteOldValue_value m1 0 x = Returns (4, prev))
    /\ write m1 0 W4 4 prev = Returns (true, m2)
    /\ data_ m2 = data_ demoMemory.
Proof.
  assert (Hw : exists m1, write demoMemory 0 W4 4 3735928559 = Returns (true, m1))
    by (eexists; vm_compute; reflexivity).
  destruct Hw as [m1 Hw].
  destruct (write_back_previous demoMemory m1 0 W4 4 3735928559)
    as (prev & m2 & H1 & H2 & H3);
    [ apply (bool_decide_unpack _); vm_compute; reflexivity
    | vm_compute; reflexivity | exact Hw |].
  exists m1, prev, m2. done.
Defined.

(** ** Byte access *)

(** X6.  The byte entry points are the templates at [uint8_t]:
    [readByte] is [read<uint8_t>] and [writeByte] is [write<uint8_t>], on
    every memory and every address. *)
Theorem byte_access_is_template (m : Memory) (h a v : N) :
  readByte m a = read m W1 a
  /\ writeByte m h a v = write m h W1 a v.
Proof.
  split.
  - unfold readByte, read. cbn [sizeof]. change (1 - 1) with 0.
    rewrite N.land_0_r. cbn.
    by destruct (isRead (getAttrib m a)), (isMemMappedReg (getAttrib m a)).
  - unfold writeByte, write. cbn [sizeof]. change (1 - 1) with 0.
    rewrite N.land_0_r. cbn.
    by destruct (isWrite (getAttrib m a)), (isMemMappedReg (getAttrib m a)).
Qed.

(** ** Clearing the last-write information *)

(** X7.  For an existing hart, [clearLastWriteInfo] succeeds; afterwards
    the three getters return size 0 and leave the references they were
    given untouched; the byte buffer, the reservations and the records of
    the other harts are as before. *)
Theorem clearLastWriteInfo_then_get (m : Memory) (h : N) :
  is_Some (lastWriteData_ m !! N.to_nat h) ->
  exists m',
    clearLastWriteInfo m h = Returns m'
    /\ (forall addr value,
          getLastWriteNewValue m' h addr value = Returns (0, addr, value)
          /\ getLastWriteOldValue m' h addr value = Returns (0, addr, value)
          /\ getLastWriteOldValue_value m' h value = Returns (0, value))
    /\ data_ m' = data_ m
    /\ reservations_ m' = reservations_ m
    /\ (forall h' : nat, h' <> N.to_nat h ->
          lastWriteData_ m' !! h' = lastWriteData_ m !! h').
Proof.
  intros Hh. pose proof (proj1 (lookup_lt_is_Some _ _) Hh) as Hlt.
  destruct Hh as [lwd Hl].
  unfold clearLastWriteInfo, at_. rewrite Hl. cbn.
  eexists. split; [done|]. split; [|split; [done|split; [done|]]].
  - intros addr value.
    unfold getLastWriteNewValue, getLastWriteOldValue, getLastWriteOldValue_value, at_.
    cbn [lastWriteData_ with_lastWriteData].
    by rewrite list_lookup_insert_eq by done.
  - intros h' Hne. cbn. by rewrite list_lookup_insert_ne.
Qed.

Lemma clearLastWriteInfo_then_get_witness :
  exists m1 m',
    write demoMemory 0 W4 4 3735928559 = Returns (true, m1)
    /\ getLastWriteNewValue m1 0 7 9 = Returns (4, 4, 3735928559)
    /\ clearLastWriteInfo m1 0 = Returns m'
    /\ getLastWriteNewValue m' 0 7 9 = Returns (0, 7, 9).
Proof.
  assert (Hw : exists m1, write demoMemory 0 W4 4 3735928559 = Returns (true, m1))
    by (eexists; vm_compute; reflexivity).
  destruct Hw as [m1 Hw]. exists m1.
  destruct (clearLastWriteInfo_then_get m1 0) as (m' & Hc & Hg & _).
  - rewrite write_spec in Hw. vm_compute in Hw. injection Hw as <-.
    vm_compute. eauto.
  - exists m'. split; [exact Hw|]. split.
    + rewrite write_spec in Hw. vm_compute in Hw. injection Hw as <-.
      vm_compute. reflexivity.
    + split; [exact Hc | apply Hg].
Defined.

(** ** Addresses outside the attribute table *)

Lemma getAttrib_outside (m : Memory) (a : N) :
  N.of_nat (length (attribs_ m)) * 2 ^ pageShift_ m <= a ->
  getAttrib m a = noAccess.
Proof.
  intros Ha. unfold getAttrib, getPageIx. rewrite N.shiftr_div_pow2.
  assert (HP : 2 ^ pageShift_ m <> 0) by (apply N.pow_nonzero; lia).
  pose proof (N.Div0.div_le_mono _ _ (2 ^ pageShift_ m) Ha) as Hd.
  rewrite N.div_mul in Hd by done.
  by destruct (N.ltb_spec (a / 2 ^ pageShift_ m) (N.of_nat (length (attribs_ m))));
    [lia|].
Qed.

(** X8.  An address at or beyond the end of the attribute table (number
    of pages times page size) has no access: every load, fetch, store,
    dry run and poke there returns false, and the memory is returned
    unchanged. *)
Theorem outside_table_refused (m : Memory) (h : N) (w : width) (a v : N) :
  N.of_nat (length (attribs_ m)) * 2 ^ pageShift_ m <= a ->
  read m w a = Returns None
  /\ readByte m a = Returns None
  /\ readInstHalfWord m a = Returns None
  /\ readInstWord m a = Returns None
  /\ write m h w a v = Returns (false, m)
  /\ writeByte m h a v = Returns (false, m)
  /\ checkWrite m w a v = Returns (false, v, m)
  /\ poke m w a v = Returns (false, m)
  /\ pokeByte m a v = Returns (false, m).
Proof.
  intros Ha. pose proof (getAttrib_outside m a Ha) as Hno.
  unfold read, readByte, readInstHalfWord, readInstWord, write, writeByte,
    checkWrite, poke, pokeByte.
  rewrite Hno. cbn. done.
Qed.

Lemma outside_table_refused_witness :
  read demoMemory W4 256 = Returns None
  /\ readByte demoMemory 256 = Returns None
  /\ readInstHalfWord demoMemory 256 = Returns None
  /\ readInstWord demoMemory 256 = Returns None
  /\ write demoMemory 0 W4 256 1 = Returns (false, demoMemory)
  /\ writeByte demoMemory 0 256 1 = Returns (false, demoMemory)
  /\ checkWrite demoMemory W4 256 1 = Returns (false, 1, demoMemory)
  /\ poke demoMemory W4 256 1 = Returns (false, demoMemory)
  /\ pokeByte demoMemory 256 1 = Returns (false, demoMemory).
Proof.
  apply (outside_table_refused demoMemory 0 W4 256 1).
  vm_compute. discriminate.
Defined.

(** ** Protection windows *)

Lemma setAccess_fields (f : bool -> PageAttribs -> PageAttribs) (m : Memory)
    (addr : N) (value : bool) :
  let m' := setAccess f m addr value in
  data_ m' = data_ m /\ pageSize_ m' = pageSize_ m /\ pageShift_ m' = pageShift_ m
  /\ masks_ m' = masks_ m /\ reservations_ m' = reservations_ m
  /\ lastWriteData_ m' = lastWriteData_ m
  /\ length (attribs_ m') = length (attribs_ m).
Proof.
  unfold setAccess. destruct (_ <=? _); cbn; [done|].
  by rewrite length_alter.
Qed.

Lemma getAttrib_setAccess (f : bool -> PageAttribs -> PageAttribs) (m : Memory)
    (addr x : N) (value : bool) :
  getAttrib (setAccess f m addr value) x
  = if (getPageIx m x =? getPageIx m addr)
       && (getPageIx m addr <? N.of_nat (length (attribs_ m)))
    then f value (getAttrib m x)
    else getAttrib m x.
Proof.
  unfold setAccess.
  destruct (N.leb_spec (N.of_nat (length (attribs_ m))) (getPageIx m addr)) as [Hout|Hin].
  { destruct (N.ltb_spec (getPageIx m addr) (N.of_nat (length (attribs_ m))));
      [lia|]. by rewrite andb_false_r. }
  destruct (N.ltb_spec (getPageIx m addr) (N.of_nat (length (attribs_ m))));
    [|lia]. rewrite andb_true_r.
  unfold getAttrib. cbn [attribs_ with_attribs].
  change (getPageIx (with_attribs _ m) x) with (getPageIx m x).
  rewrite length_alter.
  destruct (N.eqb_spec (getPageIx m x) (getPageIx m addr)) as [->|Hne].
  - destruct (N.ltb_spec (getPageIx m addr) (N.of_nat (length (attribs_ m))));
      [|lia].
    rewrite list_lookup_alter_eq.
    destruct (lookup_lt_is_Some_2 (attribs_ m) (N.to_nat (getPageIx m addr)))
      as [p ->]; [lia|]. done.
  - rewrite list_lookup_alter_ne by lia. done.
Qed.

(** X9.  [setWriteAccess], [setReadAccess] and [setExecAccess] set the one
    flag they name on the page of [addr] when that page is in the table,
    and do nothing otherwise: no other flag and no other page changes, nor
    does anything else in the memory. *)
Theorem access_toggle_effect (m : Memory) (addr x : N) (value : bool) :
  let hit := (getPageIx m x =? getPageIx m addr)
             && (getPageIx m addr <? N.of_nat (length (attribs_ m))) in
  getAttrib (setWriteAccess m addr value) x
  = (if hit then setWrite value (getAttrib m x) else getAttrib m x)
  /\ getAttrib (setReadAccess m addr value) x
     = (if hit then setRead value (getAttrib m x) else getAttrib m x)
  /\ getAttrib (setExecAccess m addr value) x
     = (if hit then setExec value (getAttrib m x) else getAttrib m x)
  /\ data_ (setWriteAccess m addr value) = data_ m
  /\ data_ (setReadAccess m addr value) = data_ m
  /\ data_ (setExecAccess m addr value) = data_ m.
Proof.
  cbv zeta. unfold setWriteAccess, setReadAccess, setExecAccess.
  rewrite !getAttrib_setAccess.
  repeat split; apply setAccess_fields.
Qed.

Lemma crossesPage_setAccess (f : bool -> PageAttribs -> PageAttribs) (m : Memory)
    (addr : N) (value : bool) (n a : N) :
  crossesPage (setAccess f m addr value) n a = crossesPage m n a.
Proof.
  unfold crossesPage, getPageStartAddr.
  by destruct (setAccess_fields f m addr value) as (_ & _ & -> & _).
Qed.

(** X10.  Closing a window: once [setWriteAccess(addr, false)] has run,
    every store and dry run to an address on the page of [addr] returns
    false while every load of the memory answers as before; after
    [setReadAccess(addr, false)] every load from that page returns false;
    after [setExecAccess(addr, false)] every fetch from it returns
    false. *)
Theorem closed_window_refuses (m : Memory) (addr a : N) :
  getPageIx m a = getPageIx m addr ->
  (forall h w v,
     write (setWriteAccess m addr false) h w a v
     = Returns (false, setWriteAccess m addr false)
     /\ writeByte (setWriteAccess m addr false) h a v
        = Returns (false, setWriteAccess m addr false)
     /\ checkWrite (setWriteAccess m addr false) w a v
        = Returns (false, v, setWriteAccess m addr false))
  /\ (forall w x, read (setWriteAccess m addr false) w x = read m w x)
  /\ (forall w, read (setReadAccess m addr false) w a = Returns None)
  /\ readByte (setReadAccess m addr false) a = Returns None
  /\ readInstHalfWord (setExecAccess m addr false) a = Returns None
  /\ readInstWord (setExecAccess m addr false) a = Returns None.
Proof.
  intros Hpage.
  assert (Hflag : forall f : bool -> PageAttribs -> PageAttribs,
            forall g : PageAttribs -> bool,
            (forall p, g (f false p) = false) -> g noAccess = false ->
            g (getAttrib (setAccess f m addr false) a) = false).
  { intros f g Hf Hno. rewrite getAttrib_setAccess, Hpage, N.eqb_refl. cbn.
    destruct (N.ltb_spec (getPageIx m addr) (N.of_nat (length (attribs_ m))))
      as [Hin|Hout]; [apply Hf|].
    unfold getAttrib. rewrite Hpage.
    by destruct (N.ltb_spec (getPageIx m addr) (N.of_nat (length (attribs_ m))));
      [lia|]. }
  assert (Hw := Hflag setWrite isWrite (fun _ => eq_refl) eq_refl).
  assert (Hr := Hflag setRead isRead (fun _ => eq_refl) eq_refl).
  assert (Hx := Hflag setExec isExec (fun _ => eq_refl) eq_refl).
  fold (setWriteAccess m addr false) in Hw.
  fold (setReadAccess m addr false) in Hr.
  fold (setExecAccess m addr false) in Hx.
  split; [|split; [|split; [|split; [|split]]]].
  - intros h w v. unfold write, writeByte, checkWrite. by rewrite Hw.
  - intros w x. rewrite !read_spec.
    assert (Hperm : loadPermitted (setWriteAccess m addr false) w x
                    = loadPermitted m w x).
    { unfold loadPermitted, setWriteAccess.
      rewrite crossesPage_setAccess, !getAttrib_setAccess.
      by destruct ((getPageIx m x =? getPageIx m addr) && _),
        ((getPageIx m (wrap (x + sizeof w)) =? getPageIx m addr) && _). }
    rewrite Hperm. unfold setWriteAccess.
    by destruct (setAccess_fields setWrite m addr false) as (-> & _).
  - intros w. unfold read. by rewrite Hr.
  - unfold readByte. by rewrite Hr.
  - unfold readInstHalfWord. by rewrite Hx.
  - unfold readInstWord. by rewrite Hx.
Qed.

Lemma closed_window_refuses_witness :
  (forall h w v,
     write (setWriteAccess demoMemory 3 false) h w 40 v
     = Returns (false, setWriteAccess demoMemory 3 false)
     /\ writeByte (setWriteAccess demoMemory 3 false) h 40 v
        = Returns (false, setWriteAccess demoMemory 3 false)
     /\ checkWrite (setWriteAccess demoMemory 3 false) w 40 v
        = Returns (false, v, setWriteAccess demoMemory 3 false))
  /\ (forall w x, read (setWriteAccess demoMemory 3 false) w x = read demoMemory w x)
  /\ (forall w, read (setReadAccess demoMemory 3 false) w 40 = Returns None)
  /\ readByte (setReadAccess demoMemory 3 false) 40 = Returns None
  /\ readInstHalfWord (setExecAccess demoMemory 3 false) 40 = Returns None
  /\ readInstWord (setExecAccess demoMemory 3 false) 40 = Returns None.
Proof.
  apply (closed_window_refuses demoMemory 3 40). vm_compute. reflexivity.
Defined.

(** ** Pages *)

Lemma pageStart_raw (s a : N) :
  N.shiftl (N.shiftr a s) s = a / 2 ^ s * 2 ^ s.
Proof. by rewrite N.shiftr_div_pow2, N.shiftl_mul_pow2. Qed.

Lemma pageStart_bounds (s a : N) :
  a / 2 ^ s * 2 ^ s <= a /\ a < a / 2 ^ s * 2 ^ s + 2 ^ s.
Proof.
  assert (HP : 2 ^ s <> 0) by (apply N.pow_nonzero; lia).
  pose proof (N.Div0.div_mod a (2 ^ s)) as Hdm.
  pose proof (N.mod_upper_bound a (2 ^ s) HP) as Hlt.
  rewrite (N.mul_comm (a / 2 ^ s)).
  set (P := 2 ^ s) in *. set (q := P * (a / P)) in *. set (r := a mod P) in *. lia.
Qed.

Lemma getPageStartAddr_small (m : Memory) (a : N) :
  a < 2 ^ 64 ->
  getPageStartAddr m a = a / 2 ^ pageShift_ m * 2 ^ pageShift_ m.
Proof.
  intros Ha. unfold getPageStartAddr, wrap. rewrite pageStart_raw.
  apply N.mod_small. pose proof (pageStart_bounds (pageShift_ m) a). lia.
Qed.

Lemma getPageStartAddr_bounds (m : Memory) (a : N) :
  a < 2 ^ 64 ->
  getPageStartAddr m a <= a /\ a < getPageStartAddr m a + 2 ^ pageShift_ m.
Proof.
  intros Ha. rewrite (getPageStartAddr_small m a Ha).
  apply pageStart_bounds.
Qed.

(** X11.  Page arithmetic, for addresses below [2^64]: the page start is
    at most the address and less than a page below it, is its own page
    start, and carries the attributes of the address; two addresses with
    the same page start have the same page index and the same
    attributes. *)
Theorem page_start_properties (m : Memory) (a b : N) :
  a < 2 ^ 64 -> b < 2 ^ 64 ->
  getPageStartAddr m a <= a
  /\ a < getPageStartAddr m a + 2 ^ pageShift_ m
  /\ getPageStartAddr m (getPageStartAddr m a) = getPageStartAddr m a
  /\ getAttrib m (getPageStartAddr m a) = getAttrib m a
  /\ (getPageStartAddr m a = getPageStartAddr m b
      <-> getPageIx m a = getPageIx m b)
  /\ (getPageStartAddr m a = getPageStartAddr m b ->
      getAttrib m a = getAttrib m b).
Proof.
  intros Ha Hb.
  assert (HP : 2 ^ pageShift_ m <> 0) by (apply N.pow_nonzero; lia).
  pose proof (pageStart_bounds (pageShift_ m) a) as [Hlo Hhi].
  rewrite !(getPageStartAddr_small m a Ha), (getPageStartAddr_small m b Hb).
  assert (Hix : getPageIx m (a / 2 ^ pageShift_ m * 2 ^ pageShift_ m) = getPageIx m a).
  { unfold getPageIx. rewrite !N.shiftr_div_pow2. by rewrite N.div_mul. }
  assert (Hiff : a / 2 ^ pageShift_ m * 2 ^ pageShift_ m
                 = b / 2 ^ pageShift_ m * 2 ^ pageShift_ m
                 <-> getPageIx m a = getPageIx m b).
  { unfold getPageIx. rewrite !N.shiftr_div_pow2. by rewrite N.mul_cancel_r. }
  split; [done|]. split; [done|]. split.
  { rewrite getPageStartAddr_small by lia. by rewrite N.div_mul. }
  split; [unfold getAttrib; by rewrite Hix|]. split; [done|].
  intros Heq%Hiff. unfold getAttrib. by rewrite Heq.
Qed.

Lemma page_start_properties_witness :
  getPageStartAddr demoMemory 70 <= 70
  /\ 70 < getPageStartAddr demoMemory 70 + 2 ^ pageShift_ demoMemory
  /\ getPageStartAddr demoMemory (getPageStartAddr demoMemory 70)
     = getPageStartAddr demoMemory 70
  /\ getAttrib demoMemory (getPageStartAddr demoMemory 70) = getAttrib demoMemory 70
  /\ (getPageStartAddr demoMemory 70 = getPageStartAddr demoMemory 127
      <-> getPageIx demoMemory 70 = getPageIx demoMemory 127)
  /\ (getPageStartAddr demoMemory 70 = getPageStartAddr demoMemory 127 ->
      getAttrib demoMemory 70 = getAttrib demoMemory 127).
Proof.
  apply (page_start_properties demoMemory 70 127); vm_compute; reflexivity.
Defined.

(** An access aligned to its size [2^k] ends inside its page when pages
    hold at least [2^k] bytes. *)
Lemma aligned_block_in_page (s k a : N) :
  k <= s -> a mod 2 ^ k = 0 ->
  a + 2 ^ k <= a / 2 ^ s * 2 ^ s + 2 ^ s.
Proof.
  intros Hk Hal.
  replace s with (k + (s - k)) by lia. rewrite N.pow_add_r.
  set (c := 2 ^ k) in *. set (P := 2 ^ (s - k)).
  assert (Hc : c <> 0) by (apply N.pow_nonzero; lia).
  assert (HP : P <> 0) by (apply N.pow_nonzero; lia).
  pose proof (N.Div0.div_mod a c) as Ha. rewrite Hal, N.add_0_r in Ha.
  rewrite <- N.Div0.div_div. set (q := a / c) in *.
  pose proof (N.Div0.div_mod q P) as Hq.
  pose proof (N.mod_upper_bound q P HP) as Hlt.
  rewrite Ha at 1.
  replace (q / P * (c * P) + c * P) with (c * (P * (q / P) + P)) by lia.
  replace (c * q + c) with (c * (q + 1)) by lia.
  apply N.mul_le_mono_l. lia.
Qed.

Lemma land_sizeof_mod (w : width) (a : N) :
  exists k, sizeof w = 2 ^ k /\ k <= 3 /\ N.land a (sizeof w - 1) = a mod 2 ^ k.
Proof.
  destruct w; [exists 0 | exists 1 | exists 2 | exists 3];
    (split; [done|]; split; [lia|]); cbn [sizeof].
  - change (1 - 1) with (N.ones 0). apply N.land_ones.
  - change (2 - 1) with (N.ones 1). apply N.land_ones.
  - change (4 - 1) with (N.ones 2). apply N.land_ones.
  - change (8 - 1) with (N.ones 3). apply N.land_ones.
Qed.

(** With pages of [2^pageShift_] bytes, at least 8, and no wrap-around
    in sight, an access that does not cross a page in the sense of [write]
    ends before the page end that [poke] computes. *)
Lemma no_crossing_in_page (m : Memory) (w : width) (a : N) :
  3 <= pageShift_ m ->
  a + 8 + 2 ^ pageShift_ m < 2 ^ 64 ->
  crossesPage m (sizeof w) a = false ->
  a + sizeof w <= getPageStartAddr m a + 2 ^ pageShift_ m.
Proof.
  intros Hs Hnw Hcr.
  assert (Hw : 1 <= sizeof w <= 8) by (destruct w; cbn; lia).
  rewrite getPageStartAddr_small by lia.
  unfold crossesPage in Hcr. apply andb_false_iff in Hcr as [Hal|Hpg].
  - apply negb_false_iff, N.eqb_eq in Hal.
    destruct (land_sizeof_mod w a) as (k & Hk & Hk3 & Hland).
    rewrite Hland in Hal. rewrite Hk.
    apply aligned_block_in_page; [lia | done].
  - apply negb_false_iff, N.eqb_eq in Hpg.
    assert (Hsm : a + sizeof w - 1 < 2 ^ 64) by lia.
    unfold wrap in Hpg. rewrite (N.mod_small _ _ Hsm) in Hpg.
    rewrite (getPageStartAddr_small m a) in Hpg by lia.
    rewrite (getPageStartAddr_small m _ Hsm) in Hpg.
    pose proof (pageStart_bounds (pageShift_ m) (a + sizeof w - 1)) as [_ Hhi].
    rewrite <- Hpg in Hhi. lia.
Qed.

(** X12.  [poke] accepts what [write] accepts: with pages of
    [2^pageShift_] bytes (at least 8) and no wrap-around, wherever
    [write<T>(h, a, v)] succeeds outside the register pages,
    [poke<T>(a, v)] succeeds too and leaves the same bytes in the buffer,
    without touching the last-write records. *)
Theorem poke_where_write (m m1 : Memory) (h : N) (w : width) (a v : N) :
  pageSize_ m = 2 ^ pageShift_ m ->
  3 <= pageShift_ m ->
  a + 8 + 2 ^ pageShift_ m < 2 ^ 64 ->
  isMemMappedReg (getAttrib m a) = false ->
  write m h w a v = Returns (true, m1) ->
  exists m2,
    poke m w a v = Returns (true, m2)
    /\ data_ m2 = data_ m1
    /\ lastWriteData_ m2 = lastWriteData_ m.
Proof.
  intros Hps Hs Hnw Hreg Hwr.
  destruct (write_plain_success _ _ _ _ _ _ Hreg Hwr)
    as (Hperm & prev & d' & _ & Hst & ->).
  assert (Hw : 1 <= sizeof w <= 8) by (destruct w; cbn; lia).
  unfold storePermitted in Hperm. rewrite Hreg in Hperm.
  rewrite andb_true_r in Hperm. apply andb_true_iff in Hperm as [Hwa Hcross].
  unfold poke.
  assert (Hmap : isMapped (getAttrib m a) = true).
  { unfold isMapped. unfold isWrite in Hwa. rewrite Hwa. by rewrite orb_true_r. }
  rewrite Hmap, Hreg. cbn [negb].
  assert (Hnext : (if wrap (getPageStartAddr m a + pageSize_ m) <? wrap (a + sizeof w)
                   then isMapped (getAttrib m (wrap (a + sizeof w)))
                   else true) = true).
  { destruct (crossesPage m (sizeof w) a) eqn:Hcr.
    - apply andb_true_iff in Hcross as [[Hw2 _]%andb_true_iff _].
      unfold isMapped. unfold isWrite in Hw2. rewrite Hw2.
      rewrite orb_true_r. by destruct (_ <? _).
    - pose proof (no_crossing_in_page m w a Hs Hnw Hcr) as Hin.
      pose proof (proj1 (getPageStartAddr_bounds m a ltac:(lia))) as Hle.
      rewrite Hps. unfold wrap at 1 2.
      rewrite !N.mod_small by lia.
      by destruct (N.ltb_spec (getPageStartAddr m a + 2 ^ pageShift_ m)
                    (a + sizeof w)); [lia|]. }
  rewrite Hnext. cbn [negb]. rewrite Hst.
  destruct w; cbn; eexists; done.
Qed.

Lemma poke_where_write_witness :
  exists m1 m2,
    write demoUnified 0 W4 62 3735928559 = Returns (true, m1)
    /\ poke demoUnified W4 62 3735928559 = Returns (true, m2)
    /\ data_ m2 = data_ m1
    /\ lastWriteData_ m2 = lastWriteData_ demoUnified.
Proof.
  assert (Hw : exists m1, write demoUnified 0 W4 62 3735928559 = Returns (true, m1))
    by (eexists; vm_compute; reflexivity).
  destruct Hw as [m1 Hw]. exists m1.
  destruct (poke_where_write demoUnified m1 0 W4 62 3735928559) as (m2 & H);
    [ vm_compute; reflexivity | vm_compute; discriminate | vm_compute; reflexivity
    | vm_compute; reflexivity | exact Hw |].
  exists m2. by split.
Defined.

(** X13.  Loading an image: on a mapped page without registers (it need
    not be writable), with pages of [2^pageShift_] bytes, at least 4, a
    [poke] of a word to a word-aligned address inside the buffer succeeds;
    the word is then fetched by [readInstWord] if the page is executable
    and read by [readWord] if it is readable, while a [write] to a
    non-writable page is refused. *)
Theorem poke_then_fetch (m : Memory) (a v : N) :
  isMapped (getAttrib m a) = true ->
  isMemMappedReg (getAttrib m a) = false ->
  N.land a 3 = 0 ->
  fits W4 v ->
  a + 4 <= size_ m ->
  pageSize_ m = 2 ^ pageShift_ m ->
  2 <= pageShift_ m ->
  a + pageSize_ m < 2 ^ 64 ->
  exists m',
    poke m W4 a v = Returns (true, m')
    /\ (isExec (getAttrib m a) = true -> readInstWord m' a = Returns (Some v))
    /\ (isRead (getAttrib m a) = true -> readWord m' a = Returns (Some v))
    /\ (isWrite (getAttrib m a) = false ->
        forall h, write m h W4 a v = Returns (false, m)).
Proof.
  intros Hmap Hreg Hal Hv Hbuf Hps Hsh Hnw. unfold size_ in Hbuf.
  destruct (storeT_in_buffer (data_ m) W4 a v Hbuf) as [d' Hd'].
  exists (with_data d' m). split; [|split; [|split]].
  - unfold poke. rewrite Hmap, Hreg. cbn [negb sizeof].
    pose proof (aligned_word_in_page (pageShift_ m) a Hsh Hal) as Hin.
    pose proof (pageStart_bounds (pageShift_ m) a) as [Hlo _].
    rewrite <- pageStart_raw in Hlo.
    unfold getPageStartAddr, wrap at 1 2 3.
    rewrite (N.mod_small (N.shiftl _ _)) by lia.
    rewrite (N.mod_small (_ + pageSize_ m)) by lia.
    rewrite (N.mod_small (a + 4)) by lia.
    destruct (N.ltb_spec (N.shiftl (N.shiftr a (pageShift_ m)) (pageShift_ m)
                          + pageSize_ m) (a + 4)) as [Hlt|_]; [lia|].
    cbn. by rewrite Hd'.
  - intros Hx. rewrite readInstWord_spec.
    assert (Hf : fetchPermitted (with_data d' m) 4 a = true).
    { unfold fetchPermitted, crossesPage. change (4 - 1) with 3.
      change (getAttrib (with_data d' m) a) with (getAttrib m a).
      rewrite Hx, Hal. done. }
    rewrite Hf. cbn [data_ with_data].
    rewrite (loadT_storeT _ _ _ _ _ Hd'). cbn. by rewrite N.mod_small.
  - intros Hr. unfold readWord. rewrite read_spec.
    assert (Hl : loadPermitted (with_data d' m) W4 a = true).
    { unfold loadPermitted.
      change (getAttrib (with_data d' m) a) with (getAttrib m a).
      change (crossesPage (with_data d' m)) with (crossesPage m).
      rewrite (aligned_no_crossing m a Hal), Hr, Hreg. done. }
    rewrite Hl. cbn [data_ with_data].
    rewrite (loadT_storeT _ _ _ _ _ Hd'). cbn. by rewrite N.mod_small.
  - intros Hw h. unfold write. by rewrite Hw.
Qed.

Lemma poke_then_fetch_witness :
  exists m',
    poke demoMemory W4 196 19 = Returns (true, m')
    /\ (isExec (getAttrib demoMemory 196) = true ->
        readInstWord m' 196 = Returns (Some 19))
    /\ (isRead (getAttrib demoMemory 196) = true ->
        readWord m' 196 = Returns (Some 19))
    /\ (isWrite (getAttrib demoMemory 196) = false ->
        forall h, write demoMemory h W4 196 19 = Returns (false, demoMemory)).
Proof.
  apply (poke_then_fetch demoMemory 196 19); try (vm_compute; reflexivity);
    vm_compute; discriminate.
Defined.

(** ** Crossing a boundary between classes of pages *)



(** ** Unified memory *)

Lemma next_byte_same_page (s k y : N) :
  k <= s -> y mod 2 ^ k <> 0 -> (y - 1) / 2 ^ s = y / 2 ^ s.
Proof.
  intros Hk Hy.
  assert (HP : 2 ^ s <> 0) by (apply N.pow_nonzero; lia).
  assert (Hr : y mod 2 ^ s <> 0).
  { intros Hz. apply Hy.
    pose proof (N.Div0.div_mod y (2 ^ s)) as Hdm. rewrite Hz, N.add_0_r in Hdm.
    replace s with (k + (s - k)) in Hdm by lia. rewrite N.pow_add_r in Hdm.
    rewrite Hdm, <- N.mul_assoc, N.mul_comm. apply N.Div0.mod_mul. }
  pose proof (N.Div0.div_mod y (2 ^ s)) as Hdm.
  pose proof (N.mod_upper_bound y (2 ^ s) HP) as Hlt.
  symmetry. apply (N.div_unique _ _ _ (y mod 2 ^ s - 1));
    set (P := 2 ^ s) in *; set (q := P * (y / P)) in *; set (r := y mod P) in *; lia.
Qed.

(** X15.  On a unified memory with pages of at least 4 bytes the fetch
    methods are the data reads, as their comments say: [readInstWord] is
    [readWord] and [readInstHalfWord] is [readHalfWord], at every address
    that is not within 4 bytes of the end of the address space. *)
Theorem fetch_is_read_on_unified_memory (m : Memory) (a : N) :
  unifiedMemory m ->
  2 <= pageShift_ m ->
  a + 4 < 2 ^ 64 ->
  readInstWord m a = readWord m a
  /\ readInstHalfWord m a = readHalfWord m a.
Proof.
  intros Hu Hs Ha.
  assert (Hsame : forall n k, n = 2 ^ k -> k <= 2 -> n <= 4 ->
            N.land a (n - 1) = a mod 2 ^ k ->
            negb (N.land a (n - 1) =? 0) = true ->
            getAttrib m (wrap (a + n - 1)) = getAttrib m (wrap (a + n))).
  { intros n k -> Hk Hn Hland Hmis.
    apply negb_true_iff, N.eqb_neq in Hmis. rewrite Hland in Hmis.
    unfold wrap. rewrite !N.mod_small by lia.
    unfold getAttrib, getPageIx. rewrite !N.shiftr_div_pow2.
    rewrite (next_byte_same_page (pageShift_ m) k (a + 2 ^ k)); [done | lia |].
    assert (Hk0 : 2 ^ k <> 0) by (apply N.pow_nonzero; lia).
    rewrite <- N.Div0.add_mod_idemp_r, N.Div0.mod_same, N.add_0_r. done. }
  unfold readWord, readHalfWord.
  rewrite readInstWord_spec, readInstHalfWord_spec, !read_spec.
  assert (Hperm : forall w n k, sizeof w = n -> n = 2 ^ k -> k <= 2 -> n <= 4 ->
            N.land a (n - 1) = a mod 2 ^ k ->
            fetchPermitted m n a = loadPermitted m w a).
  { intros w n k Hw Hn Hk Hn4 Hland.
    unfold fetchPermitted, loadPermitted, crossesPage. rewrite Hw.
    destruct (negb (N.land a (n - 1) =? 0)) eqn:Hmis; cbn [andb].
    2:{ destruct (Hu a) as (-> & -> & _). by rewrite !andb_true_r. }
    rewrite (Hsame n k Hn Hk Hn4 Hland Hmis).
    destruct (Hu a) as (-> & -> & -> & ->).
    destruct (Hu (wrap (a + n))) as (-> & -> & -> & ->).
    cbn. by rewrite !andb_true_r. }
  rewrite (Hperm W4 4 2 eq_refl eq_refl ltac:(lia) ltac:(lia) (land3_mod4 a)).
  assert (Hl1 : N.land a (2 - 1) = a mod 2 ^ 1)
    by (change (2 - 1) with (N.ones 1); apply N.land_ones).
  by rewrite (Hperm W2 2 1 eq_refl eq_refl ltac:(lia) ltac:(lia) Hl1).
Qed.

Lemma demoUnified_unified : unifiedMemory demoUnified.
Proof.
  intros x. unfold getAttrib. cbn [attribs_ demoUnified with_attribs length].
  destruct (_ <? _); [|done].
  destruct (N.to_nat (getPageIx _ x)) as [|[|[|[|n]]]]; done.
Qed.

Lemma fetch_is_read_on_unified_memory_witness :
  readInstWord demoUnified 62 = readWord demoUnified 62
  /\ readInstHalfWord demoUnified 62 = readHalfWord demoUnified 62.
Proof.
  apply (fetch_is_read_on_unified_memory demoUnified 62).
  - exact demoUnified_unified.
  - vm_compute. discriminate.
  - vm_compute. reflexivity.
Defined.

(** ** Reservation life cycle *)

Lemma hasLr_lookup (m : Memory) (h a : N) (res : Reservation) :
  reservations_ m !! N.to_nat h = Some res ->
  hasLr m h a = Returns (res_valid_ res && (res_addr_ res =? a)).
Proof. intros H. unfold hasLr, at_. by rewrite H. Qed.

Lemma invalidateOtherHartLr_lookup (m : Memory) (h addr storeSize i : N) :
  reservations_ (invalidateOtherHartLr m h addr storeSize) !! N.to_nat i
  = invalidateStep h addr storeSize i <$> reservations_ m !! N.to_nat i.
Proof.
  cbn. rewrite invalidateLoop_lookup. by rewrite N.add_0_l, N2Nat.id.
Qed.

Lemma invalidateStep_idemp (h addr storeSize i : N) (res : Reservation) :
  invalidateStep h addr storeSize i (invalidateStep h addr storeSize i res)
  = invalidateStep h addr storeSize i res.
Proof.
  unfold invalidateStep. destruct (i =? h); [done|].
  destruct ((res_addr_ res <=? addr) && (addr - res_addr_ res <? res_size_ res)) eqn:E1.
  { cbn. by rewrite E1. }
  destruct ((addr <? res_addr_ res) && (res_addr_ res - addr <? storeSize)) eqn:E2.
  { cbn. by rewrite E1, E2. }
  by rewrite E1, E2.
Qed.

Lemma invalidateLoop_idemp (h addr storeSize i : N) (rs : list Reservation) :
  invalidateLoop h addr storeSize i (invalidateLoop h addr storeSize i rs)
  = invalidateLoop h addr storeSize i rs.
Proof.
  revert i. induction rs as [|res rest IH]; intros i; [done|].
  cbn [invalidateLoop]. by rewrite invalidateStep_idemp, IH.
Qed.

(** X16.  [invalidateOtherHartLr] only ever takes reservations away: it
    changes nothing but the reservation vector, whose length it keeps; a
    reservation that [hasLr] reports afterwards was reported before; and
    running it a second time with the same arguments changes nothing. *)
Theorem invalidateOtherHartLr_only_invalidates (m : Memory) (h addr storeSize : N) :
  let m' := invalidateOtherHartLr m h addr storeSize in
  invalidateOtherHartLr m' h addr storeSize = m'
  /\ data_ m' = data_ m
  /\ lastWriteData_ m' = lastWriteData_ m
  /\ attribs_ m' = attribs_ m
  /\ length (reservations_ m') = length (reservations_ m)
  /\ (forall i a, hasLr m' i a = Returns true -> hasLr m i a = Returns true)
  /\ (forall i a, hasLr m' i a = Throws <-> hasLr m i a = Throws).
Proof.
  cbv zeta. split; [|split; [done|split; [done|split; [done|split; [|split]]]]].
  - unfold invalidateOtherHartLr. cbn. by rewrite invalidateLoop_idemp.
  - cbn. apply invalidateLoop_length.
  - intros i a. unfold hasLr, at_.
    rewrite invalidateOtherHartLr_lookup.
    destruct (reservations_ m !! N.to_nat i) as [res|]; cbn; [|done].
    pose proof (invalidateStep_cases h addr storeSize i res) as (Ha & _ & Hsame & Hother).
    cbv zeta in *. destruct (N.eq_dec i h) as [He|Hne].
    + by rewrite (Hsame He).
    + rewrite (Hother Hne). by destruct (_ || _).
  - intros i a. unfold hasLr, at_. rewrite invalidateOtherHartLr_lookup.
    by destruct (reservations_ m !! N.to_nat i).
Qed.

(** X17.  Load-reserve against a store of another hart.  Hart [h0]
    reserves [sz] bytes at [a]: [hasLr(h0, a)] is true.  A store of [ss]
    bytes at [addr] by another hart [h1], both sizes at least 1, followed
    by [invalidateOtherHartLr(h1, addr, ss)] makes [hasLr(h0, a)] false
    when the two byte ranges overlap and leaves it true when they are
    disjoint; the same call made for [h0] itself leaves it true. *)
Theorem store_breaks_reservation (m : Memory) (h0 h1 a sz addr ss : N) :
  is_Some (reservations_ m !! N.to_nat h0) ->
  h0 <> h1 -> 0 < sz -> 0 < ss ->
  exists m1,
    makeLr m h0 a sz = Returns m1
    /\ hasLr m1 h0 a = Returns true
    /\ (addr < a + sz /\ a < addr + ss ->
        hasLr (invalidateOtherHartLr m1 h1 addr ss) h0 a = Returns false)
    /\ (a + sz <= addr \/ addr + ss <= a ->
        hasLr (invalidateOtherHartLr m1 h1 addr ss) h0 a = Returns true)
    /\ hasLr (invalidateOtherHartLr m1 h0 addr ss) h0 a = Returns true.
Proof.
  intros Hh Hne Hsz Hss.
  pose proof (proj1 (lookup_lt_is_Some _ _) Hh) as Hlt.
  destruct Hh as [res0 Hres0].
  unfold makeLr, at_. rewrite Hres0. cbn. eexists. split; [done|].
  set (m1 := with_reservations _ m).
  assert (Hl1 : reservations_ m1 !! N.to_nat h0 = Some (mkReservation a sz true))
    by (cbn; by rewrite list_lookup_insert_eq).
  assert (Hstep : forall h,
            hasLr (invalidateOtherHartLr m1 h addr ss) h0 a
            = Returns (res_valid_ (invalidateStep h addr ss h0 (mkReservation a sz true)))).
  { intros h. rewrite (hasLr_lookup _ _ _ (invalidateStep h addr ss h0 (mkReservation a sz true)))
      by (by rewrite invalidateOtherHartLr_lookup, Hl1).
    pose proof (invalidateStep_cases h addr ss h0 (mkReservation a sz true)) as (-> & _).
    cbn. by rewrite N.eqb_refl, andb_true_r. }
  split; [by rewrite (hasLr_lookup _ _ _ _ Hl1); cbn; rewrite N.eqb_refl|].
  rewrite !Hstep. unfold invalidateStep. cbn [res_addr_ res_size_ res_valid_].
  rewrite N.eqb_refl. destruct (N.eqb_spec h0 h1) as [?|_]; [done|].
  split; [|split; [|done]].
  - intros [H1 H2].
    destruct (N.leb_spec a addr), (N.ltb_spec (addr - a) sz), (N.ltb_spec addr a),
      (N.ltb_spec (a - addr) ss); cbn; try done; lia.
  - intros Hd.
    destruct (N.leb_spec a addr), (N.ltb_spec (addr - a) sz), (N.ltb_spec addr a),
      (N.ltb_spec (a - addr) ss); cbn; try done; lia.
Qed.

Lemma store_breaks_reservation_witness :
  exists m1,
    makeLr demoMemory 0 100 4 = Returns m1
    /\ hasLr m1 0 100 = Returns true
    /\ (102 < 100 + 4 /\ 100 < 102 + 2 ->
        hasLr (invalidateOtherHartLr m1 1 102 2) 0 100 = Returns false)
    /\ (100 + 4 <= 102 \/ 102 + 2 <= 100 ->
        hasLr (invalidateOtherHartLr m1 1 102 2) 0 100 = Returns true)
    /\ hasLr (invalidateOtherHartLr m1 0 102 2) 0 100 = Returns true.
Proof.
  apply (store_breaks_reservation demoMemory 0 1 100 4 102 2);
    [vm_compute; eauto | discriminate | reflexivity | reflexivity].
Defined.

(** X18.  For an existing hart, [invalidateLr] succeeds; afterwards
    [hasLr] of that hart is false at every address, the other harts answer
    as before, and the byte buffer is untouched. *)
Theorem invalidateLr_clears (m : Memory) (h : N) :
  is_Some (reservations_ m !! N.to_nat h) ->
  exists m',
    invalidateLr m h = Returns m'
    /\ (forall a, hasLr m' h a = Returns false)
    /\ (forall h' a, h' <> h -> hasLr m' h' a = hasLr m h' a)
    /\ data_ m' = data_ m.
Proof.
  intros Hh. pose proof (proj1 (lookup_lt_is_Some _ _) Hh) as Hlt.
  destruct Hh as [res Hres].
  unfold invalidateLr, at_. rewrite Hres. cbn. eexists. split; [done|].
  split; [|split; [|done]].
  - intros a. unfold hasLr, at_. cbn. by rewrite list_lookup_insert_eq.
  - intros h' a Hne. unfold hasLr, at_. cbn.
    by rewrite list_lookup_insert_ne by lia.
Qed.

Lemma invalidateLr_clears_witness :
  exists m',
    invalidateLr demoReserved 1 = Returns m'
    /\ (forall a, hasLr m' 1 a = Returns false)
    /\ (forall h' a, h' <> 1 -> hasLr m' h' a = hasLr demoReserved h' a)
    /\ data_ m' = data_ demoReserved.
Proof.
  apply (invalidateLr_clears demoReserved 1). vm_compute. eauto.
Defined.

(** X19.  One reservation per hart: a second [makeLr] of the same hart
    replaces the first, so the result is that of the second call alone and
    [hasLr] at the first address is false when the addresses differ; the
    other harts answer as before. *)
Theorem makeLr_replaces (m : Memory) (h a1 s1 a2 s2 : N) :
  is_Some (reservations_ m !! N.to_nat h) ->
  exists m1 m2,
    makeLr m h a1 s1 = Returns m1
    /\ makeLr m1 h a2 s2 = Returns m2
    /\ makeLr m h a2 s2 = Returns m2
    /\ hasLr m2 h a2 = Returns true
    /\ (a1 <> a2 -> hasLr m2 h a1 = Returns false)
    /\ (forall h' a, h' <> h -> hasLr m2 h' a = hasLr m h' a).
Proof.
  intros Hh. pose proof (proj1 (lookup_lt_is_Some _ _) Hh) as Hlt.
  destruct Hh as [res Hres].
  unfold makeLr, at_. rewrite Hres. cbn. eexists. eexists. split; [done|].
  cbn [reservations_ with_reservations].
  rewrite list_lookup_insert_eq by done. cbn.
  split; [done|]. split.
  { by rewrite list_insert_insert_eq. }
  split; [|split].
  - unfold hasLr, at_. cbn.
    rewrite list_lookup_insert_eq by (by rewrite length_insert).
    cbn. by rewrite N.eqb_refl.
  - intros Hne. unfold hasLr, at_. cbn.
    rewrite list_lookup_insert_eq by (by rewrite length_insert).
    cbn. f_equal. apply N.eqb_neq. congruence.
  - intros h' a Hne. unfold hasLr, at_. cbn.
    by rewrite !list_lookup_insert_ne by lia.
Qed.

Lemma makeLr_replaces_witness :
  exists m1 m2,
    makeLr demoMemory 0 100 4 = Returns m1
    /\ makeLr m1 0 104 8 = Returns m2
    /\ makeLr demoMemory 0 104 8 = Returns m2
    /\ hasLr m2 0 104 = Returns true
    /\ (100 <> 104 -> hasLr m2 0 100 = Returns false)
    /\ (forall h' a, h' <> 0 -> hasLr m2 h' a = hasLr demoMemory h' a).
Proof.
  apply (makeLr_replaces demoMemory 0 100 4 104 8). vm_compute. eauto.
Defined.

(** ** Hart count *)

(** X20.  [setHartCount(count)] leaves exactly [count] reservation slots
    and [count] last-write records and does not touch the buffer.  A hart
    below [count] keeps the slot it had, or gets an empty one (no
    reservation, last-write size 0) if it is new; for a hart at or above
    [count] every hart-indexed call throws. *)
Theorem setHartCount_slots (m : Memory) (count h : N) :
  let m' := setHartCount count m in
  length (reservations_ m') = N.to_nat count
  /\ length (lastWriteData_ m') = N.to_nat count
  /\ data_ m' = data_ m
  /\ (h < count ->
      (forall a, (N.to_nat h < length (reservations_ m))%nat ->
         hasLr m' h a = hasLr m h a)
      /\ (forall a, (length (reservations_ m) <= N.to_nat h)%nat ->
            hasLr m' h a = Returns false)
      /\ (forall x y, (N.to_nat h < length (lastWriteData_ m))%nat ->
            getLastWriteNewValue m' h x y = getLastWriteNewValue m h x y)
      /\ (forall x y, (length (lastWriteData_ m) <= N.to_nat h)%nat ->
            getLastWriteNewValue m' h x y = Returns (0, x, y)))
  /\ (count <= h ->
      (forall a, hasLr m' h a = Throws)
      /\ (forall a sz, makeLr m' h a sz = Throws)
      /\ invalidateLr m' h = Throws
      /\ (forall x y, getLastWriteNewValue m' h x y = Throws)
      /\ clearLastWriteInfo m' h = Throws).
Proof.
  cbv zeta. unfold setHartCount. cbn [reservations_ lastWriteData_ data_
    with_lastWriteData with_reservations].
  rewrite !length_resize.
  split; [done|]. split; [done|]. split; [done|]. split.
  - intros Hlt.
    unfold hasLr, getLastWriteNewValue, at_.
    cbn [reservations_ lastWriteData_ with_lastWriteData with_reservations].
    split; [|split; [|split]].
    + intros a Hold. by rewrite lookup_resize by lia.
    + intros a Hnew. by rewrite lookup_resize_new by lia.
    + intros x y Hold. by rewrite lookup_resize by lia.
    + intros x y Hnew. by rewrite lookup_resize_new by lia.
  - intros Hge.
    unfold hasLr, makeLr, invalidateLr, getLastWriteNewValue, clearLastWriteInfo, at_.
    cbn [reservations_ lastWriteData_ with_lastWriteData with_reservations].
    rewrite !lookup_resize_old by lia. done.
Qed.

(** ** The value [checkWrite] hands back *)

(** X21.  Masking is idempotent: when [checkWrite] accepts a 4-byte store
    to a register page and hands back [v'], a second [checkWrite] of [v']
    hands back [v'] again, and [write] of [v'] does exactly what [write]
    of the original value does. *)
Theorem checked_value_writes_unchanged (m : Memory) (h a v v' : N) :
  isMemMappedReg (getAttrib m a) = true ->
  checkWrite m W4 a v = Returns (true, v', m) ->
  checkWrite m W4 a v' = Returns (true, v', m)
  /\ write m h W4 a v' = write m h W4 a v.
Proof.
  intros Hreg. rewrite !checkWrite_spec, !write_spec.
  destruct (storePermitted m W4 a); [|discriminate].
  unfold commitStore, doRegisterMasking. rewrite Hreg.
  destruct (getMemoryMappedMask m a) as [mk| |]; cbn; try discriminate.
  intros [= <-].
  by rewrite <- N.land_assoc, N.land_diag.
Qed.

Lemma checked_value_writes_unchanged_witness :
  checkWrite demoMemory W4 128 1 = Returns (true, 1, demoMemory)
  /\ write demoMemory 0 W4 128 1 = write demoMemory 0 W4 128 255.
Proof.
  apply (checked_value_writes_unchanged demoMemory 0 128 255 1);
    vm_compute; reflexivity.
Defined.

(** ** [pokeByte] *)

(** X22.  With pages of [2^pageShift_] bytes and no wrap-around,
    [pokeByte] is [poke<uint8_t>]: a single byte never reaches past its
    page, so the look at the next page that [poke] may take never
    happens. *)
Theorem pokeByte_is_poke (m : Memory) (a v : N) :
  pageSize_ m = 2 ^ pageShift_ m ->
  a + 1 + 2 ^ pageShift_ m < 2 ^ 64 ->
  pokeByte m a v = poke m W1 a v.
Proof.
  intros Hps Hnw. unfold pokeByte, poke. cbn [sizeof].
  destruct (getPageStartAddr_bounds m a ltac:(lia)) as (Hlo & Hhi).
  rewrite Hps. unfold wrap at 1 2. rewrite !N.mod_small by lia.
  destruct (N.ltb_spec (getPageStartAddr m a + 2 ^ pageShift_ m) (a + 1)); [lia|].
  by destruct (isMapped (getAttrib m a)), (isMemMappedReg (getAttrib m a)).
Qed.

Lemma pokeByte_is_poke_witness :
  pokeByte demoMemory 63 7 = poke demoMemory W1 63 7.
Proof.
  apply (pokeByte_is_poke demoMemory 63 7); vm_compute; reflexivity.
Defined.

(** ** Stack checker CSRs *)

(** X23.  [validateStackChecker] accepts a "csr" section exactly when it
    defines all three of [mspcba], [mspcta] and [mspcc] or none of them;
    when it accepts it prints nothing. *)
Theorem validateStackChecker_all_or_none {A : Type} (csrs : gmap string A) :
  let present := fun tag : string => is_Some (csrs !! tag) in
  ((validateStackChecker csrs).1 = true
   <-> (present "mspcba" /\ present "mspcta" /\ present "mspcc")
       \/ (~ present "mspcba" /\ ~ present "mspcta" /\ ~ present "mspcc"))
  /\ ((validateStackChecker csrs).1 = true ->
      (validateStackChecker csrs).2 = EmptyString).
Proof.
  cbv zeta. unfold validateStackChecker, stackCheckerTags, jsonCount. cbn [foldl length].
  destruct (csrs !! "mspcba"%string) as [x1|], (csrs !! "mspcta"%string) as [x2|],
    (csrs !! "mspcc"%string) as [x3|]; cbn; split; try done;
    (split; [try discriminate; intros _ | intros [(H1 & H2 & H3)|(H1 & H2 & H3)]]);
    try done;
    try (by (left + right); repeat split; first [eexists | intros [? ?]; discriminate]);
    try (by destruct H1 as [? ?]); try (by destruct H2 as [? ?]);
    try (by destruct H3 as [? ?]);
    try (by destruct H1; eexists); try (by destruct H2; eexists);
    try (by destruct H3; eexists).
Qed.

(** With one of the three missing the section is refused and the
    diagnostic names the defined and the missing ones. *)
Example validateStackChecker_two_of_three :
  validateStackChecker (<["mspcba"%string := 1]> (<["mspcc"%string := 2]> (∅ : gmap string N)))
  = (false,
     ("Error: Not all stack checker CSRs are defined:" +:+ newline
      +:+ "  Defined: mspcba, mspcc  Missing: mspcta")%string).
Proof. vm_compute. reflexivity. Qed.

(** ** Narrow reads inside a wide store *)

Lemma encodeLE_drop (n off : nat) (v : N) :
  drop off (encodeLE n v) = encodeLE (n - off) (v / 256 ^ N.of_nat off).
Proof.
  revert n v. induction off as [|off IH]; intros n v.
  - cbn. by rewrite N.div_1_r, Nat.sub_0_r.
  - destruct n as [|n]; [done|]. cbn [encodeLE drop Nat.sub].
    rewrite IH, Nat2N.inj_succ, N.pow_succ_r', N.Div0.div_div. done.
Qed.

Lemma encodeLE_take (n2 n : nat) (v : N) :
  (n2 <= n)%nat -> take n2 (encodeLE n v) = encodeLE n2 v.
Proof.
  revert n v. induction n2 as [|n2 IH]; intros n v Hle; [done|].
  destruct n as [|n]; [lia|]. cbn [encodeLE take]. rewrite IH by lia. done.
Qed.

Lemma loadT_inside_storeT (d d' : list N) (w w2 : width) (a v off : N) :
  storeT d w a v = Returns d' ->
  off + sizeof w2 <= sizeof w ->
  loadT d' w2 (a + off) = Returns (v / 256 ^ off mod 2 ^ (8 * sizeof w2)).
Proof.
  intros Hst Hoff. pose proof (storeT_length _ _ _ _ _ Hst) as Hlen.
  destruct (storeT_inv _ _ _ _ _ Hst) as (Hle & ->).
  assert (Hn : nbytes w = N.to_nat (sizeof w)) by done.
  assert (Hn2 : nbytes w2 = N.to_nat (sizeof w2)) by done.
  assert (Hta : length (take (N.to_nat a) d) = N.to_nat a)
    by (rewrite length_take; lia).
  unfold loadT. rewrite Hlen.
  destruct (N.leb_spec (a + off + sizeof w2) (N.of_nat (length d))); [|lia].
  do 2 f_equal.
  rewrite drop_app_ge by lia. rewrite Hta.
  replace (N.to_nat (a + off) - N.to_nat a)%nat with (N.to_nat off) by lia.
  rewrite drop_app_le by (rewrite length_encodeLE; lia).
  rewrite take_app_le by (rewrite length_drop, length_encodeLE; lia).
  rewrite encodeLE_drop, encodeLE_take by lia.
  by rewrite decodeLE_encodeLE, N2Nat.id, pow256_sizeof.
Qed.

(** X24.  A narrower read inside a wider store: after a successful store
    of [v] outside the register pages, a [read<T2>] at offset [off] inside
    the stored bytes, at an address where such a read succeeded before the
    store, returns the bytes [off .. off + sizeof(T2) - 1] of [v], least
    significant first. *)
Theorem read_inside_write (m m' : Memory) (h : N) (w w2 : width)
    (a v off old : N) :
  isMemMappedReg (getAttrib m a) = false ->
  write m h w a v = Returns (true, m') ->
  off + sizeof w2 <= sizeof w ->
  read m w2 (a + off) = Returns (Some old) ->
  read m' w2 (a + off)
  = Returns (Some (v / 256 ^ off mod 2 ^ (8 * sizeof w2))).
Proof.
  intros Hreg Hwr Hoff Hold.
  destruct (write_plain_success _ _ _ _ _ _ Hreg Hwr)
    as (_ & prev & d' & _ & Hst & ->).
  rewrite read_spec in Hold. rewrite read_spec.
  change (loadPermitted _ w2 (a + off)) with (loadPermitted m w2 (a + off)).
  destruct (loadPermitted m w2 (a + off)); [|discriminate].
  cbn [data_ with_lastWriteData with_data].
  by rewrite (loadT_inside_storeT _ _ _ _ _ _ _ Hst Hoff).
Qed.

Lemma read_inside_write_witness :
  exists m',
    write demoMemory 0 W8 8 1311768467463790320 = Returns (true, m')
    /\ read m' W2 (8 + 2) = Returns (Some 39612)
    /\ read m' W4 (8 + 4) = Returns (Some 305419896).
Proof.
  eexists. split; [vm_compute; reflexivity|].
  match goal with |- read ?m' _ _ = _ /\ _ =>
    split;
    [ exact (read_inside_write demoMemory m' 0 W8 W2 8 1311768467463790320 2 0
               ltac:(vm_compute; reflexivity) ltac:(vm_compute; reflexivity)
               ltac:(vm_compute; discriminate) ltac:(vm_compute; reflexivity))
    | exact (read_inside_write demoMemory m' 0 W8 W4 8 1311768467463790320 4 0
               ltac:(vm_compute; reflexivity) ltac:(vm_compute; reflexivity)
               ltac:(vm_compute; discriminate) ltac:(vm_compute; reflexivity)) ]
  end.
Defined.

(** ** Last-write records are per hart *)

(** X25.  After any successful [write] by hart [h], register page or
    not, [getLastWriteNewValue(h)] returns the size, the address and the
    value that went into the buffer (the value passed, outside the register
    pages), while the answer for every other hart is what it was. *)
Theorem last_write_is_per_hart (m m' : Memory) (h : N) (w : width) (a v : N) :
  write m h w a v = Returns (true, m') ->
  exists v',
    storeT (data_ m) w a v' = Returns (data_ m')
    /\ (isMemMappedReg (getAttrib m a) = false -> v' = v)
    /\ (forall x y, getLastWriteNewValue m' h x y = Returns (sizeof w, a, v'))
    /\ (forall h' x y, h' <> h ->
          getLastWriteNewValue m' h' x y = getLastWriteNewValue m h' x y).
Proof.
  intros [(? & _)|(_ & _ & v' & prev & d' & lwd & Hv & Hl & _ & Hst & ->)]%write_inv;
    [done|].
  assert (Hlt : (N.to_nat h < length (lastWriteData_ m))%nat)
    by (by apply lookup_lt_is_Some).
  exists v'. split; [done|]. split; [done|]. split.
  - intros x y. unfold getLastWriteNewValue, at_.
    cbn [lastWriteData_ with_lastWriteData].
    rewrite list_lookup_insert_eq by done. cbn. by destruct w.
  - intros h' x y Hne. unfold getLastWriteNewValue, at_.
    cbn [lastWriteData_ with_lastWriteData].
    by rewrite list_lookup_insert_ne by lia.
Qed.

Lemma last_write_is_per_hart_witness :
  exists m' v',
    write demoMemory 1 W4 128 255 = Returns (true, m')
    /\ storeT (data_ demoMemory) W4 128 v' = Returns (data_ m')
    /\ (forall x y, getLastWriteNewValue m' 1 x y = Returns (4, 128, v'))
    /\ (forall x y, getLastWriteNewValue m' 0 x y = getLastWriteNewValue demoMemory 0 x y).
Proof.
  assert (Hw : exists m', write demoMemory 1 W4 128 255 = Returns (true, m'))
    by (eexists; vm_compute; reflexivity).
  destruct Hw as [m' Hw]. exists m'.
  destruct (last_write_is_per_hart demoMemory m' 1 W4 128 255 Hw)
    as (v' & H1 & _ & H2 & H3).
  exists v'. split; [exact Hw|]. split; [exact H1|]. split; [exact H2|].
  intros x y. apply H3. discriminate.
Defined.

End WdRiscv.
